(** * ServiceWorkerMain: lifecycle of the service-worker proxy

    A shallow embedding of
    [shell/browser/api/electron_api_service_worker_main.cc].

    The C++ object graph is modelled by an explicit [World]: the host's
    live service-worker versions, a log of every call made into the host,
    the process-wide [VersionIdMap], the heap of [ServiceWorkerMain]
    objects and the promise store of the isolate.  Methods are written in
    a small state monad whose results distinguish a normal return, a
    pending JavaScript exception and a fault of the process (a null
    dereference). *)

From stdpp Require Import gmap strings list fin_maps.
From Stdlib Require Import ZArith Ascii.

Local Open Scope string_scope.

(** ** Collaborators outside the repository

    [gin::ConvertFromV8] into a [blink::CloneableMessage] and [base::Uuid]
    belong to Chromium; the proxy only observes their results. *)
Class Collaborators := {
  V8Value : Type;
  CloneableMessage : Type;
  ConvertFromV8 : V8Value → option CloneableMessage;
  Uuid : Type;
  ParseLowercase : string → Uuid;
  is_valid : Uuid → bool;
  AsLowercaseString : Uuid → string;
}.

(** ** Host data *)

Definition GURL : Type := string.
Definition EmptyGURL : GURL := EmptyString.

Inductive Origin := OriginCreate (url : GURL).
Inductive StorageKey := CreateFirstParty (origin : Origin).

Inductive EmbeddedWorkerStatus := kStopped | kStarting | kRunning | kStopping.

Record ServiceWorkerVersionBaseInfo := {
  scope : GURL;
  registration_id : Z;
}.

Record ServiceWorkerVersion := {
  GetInfo : ServiceWorkerVersionBaseInfo;
  is_redundant : bool;
  running_status : EmbeddedWorkerStatus;
}.

Definition ContextId : Type := nat.
Definition PartitionId : Type := nat.
Definition Addr : Type := nat.
Definition PromiseId : Type := nat.

Inductive TimeoutType := kDefault | kDoesNotTimeout.
Inductive ExternalRequestResult :=
  kOk | kBadRequestId | kWorkerNotRunning | kWorkerNotFound | kNullContext.

Definition is_kOk (r : ExternalRequestResult) : bool :=
  match r with kOk => true | _ => false end.

Definition is_running (s : EmbeddedWorkerStatus) : bool :=
  match s with kRunning => true | _ => false end.

Definition is_starting (s : EmbeddedWorkerStatus) : bool :=
  match s with kStarting => true | _ => false end.

(** ** Identity key *)

Record ServiceWorkerKey := {
  key_version_id : Z;
  key_storage_partition : PartitionId;
}.

Global Instance ServiceWorkerKey_eq_dec : EqDecision ServiceWorkerKey.
Proof. solve_decision. Defined.

Global Instance ServiceWorkerKey_countable : Countable ServiceWorkerKey.
Proof.
  refine (inj_countable'
            (λ k, (key_version_id k, key_storage_partition k))
            (λ p, {| key_version_id := p.1; key_storage_partition := p.2 |}) _).
  by intros [].
Defined.

(** ** Script-visible errors and promises *)

Inductive JsError :=
  | Error (message : string)
  | TypeError (message : string).

Inductive PromiseState :=
  | Pending
  | Fulfilled
  | Rejected (reason : JsError).

Definition destroyed_message : string := "ServiceWorkerMain is destroyed".
Definition serialize_message : string := "Failed to serialize arguments".
Definition start_failed_message : string := "Failed to start service worker.".
Definition invalid_uuid_message : string := "Invalid external request UUID".

(** ** The proxy object *)

(** Modelled from the spec: the class declaration of [ServiceWorkerMain]
    lives in the header, which is not part of the sources.  The fields are
    the members the .cc file reads and writes; [remote_] records the
    endpoint the associated remote is bound to, [pinned_] the strong
    self-reference held by [gin_helper::Pinnable]. *)
Record ServiceWorkerMain := {
  version_id_ : Z;
  key_ : ServiceWorkerKey;
  service_worker_context_ : ContextId;
  version_destroyed_ : bool;
  version_info_ : option ServiceWorkerVersionBaseInfo;
  remote_ : option (ContextId * Z);
  start_worker_promise_ : option PromiseId;
  pinned_ : bool;
}.

Definition set_version_destroyed (b : bool) (o : ServiceWorkerMain) :=
  {| version_id_ := version_id_ o; key_ := key_ o;
     service_worker_context_ := service_worker_context_ o;
     version_destroyed_ := b; version_info_ := version_info_ o;
     remote_ := remote_ o; start_worker_promise_ := start_worker_promise_ o;
     pinned_ := pinned_ o |}.

Definition set_version_info (i : option ServiceWorkerVersionBaseInfo)
    (o : ServiceWorkerMain) :=
  {| version_id_ := version_id_ o; key_ := key_ o;
     service_worker_context_ := service_worker_context_ o;
     version_destroyed_ := version_destroyed_ o; version_info_ := i;
     remote_ := remote_ o; start_worker_promise_ := start_worker_promise_ o;
     pinned_ := pinned_ o |}.

Definition set_remote (r : option (ContextId * Z)) (o : ServiceWorkerMain) :=
  {| version_id_ := version_id_ o; key_ := key_ o;
     service_worker_context_ := service_worker_context_ o;
     version_destroyed_ := version_destroyed_ o;
     version_info_ := version_info_ o;
     remote_ := r; start_worker_promise_ := start_worker_promise_ o;
     pinned_ := pinned_ o |}.

Definition set_start_worker_promise (p : option PromiseId)
    (o : ServiceWorkerMain) :=
  {| version_id_ := version_id_ o; key_ := key_ o;
     service_worker_context_ := service_worker_context_ o;
     version_destroyed_ := version_destroyed_ o;
     version_info_ := version_info_ o;
     remote_ := remote_ o; start_worker_promise_ := p;
     pinned_ := pinned_ o |}.

Definition set_pinned (b : bool) (o : ServiceWorkerMain) :=
  {| version_id_ := version_id_ o; key_ := key_ o;
     service_worker_context_ := service_worker_context_ o;
     version_destroyed_ := version_destroyed_ o;
     version_info_ := version_info_ o;
     remote_ := remote_ o; start_worker_promise_ := start_worker_promise_ o;
     pinned_ := b |}.

Section Model.
Context `{Collaborators}.

(** ** Calls into the host *)

Inductive HostCall :=
  | GetRemoteAssociatedInterface (ctx : ContextId) (version_id : Z)
  | Message (endpoint : ContextId * Z) (internal : bool) (channel : string)
            (message : CloneableMessage)
  | StartWorkerForScope (ctx : ContextId) (scope_url : GURL)
                        (key : StorageKey) (receiver : Addr)
  | StopAllServiceWorkersForStorageKey (ctx : ContextId) (key : StorageKey)
  | StartingExternalRequest (ctx : ContextId) (version_id : Z)
                            (timeout : TimeoutType) (request : Uuid)
  | FinishedExternalRequest (ctx : ContextId) (version_id : Z) (request : Uuid)
  | CountExternalRequestsForTest (ctx : ContextId) (key : StorageKey).

Definition is_start_call (c : HostCall) : bool :=
  match c with StartWorkerForScope _ _ _ _ => true | _ => false end.

(** ** The world *)

Record World := {
  live_versions : gmap (ContextId * Z) ServiceWorkerVersion;
  host_calls : list HostCall;
  version_id_map : gmap ServiceWorkerKey Addr;
  heap : gmap Addr ServiceWorkerMain;
  next_addr : Addr;
  promises : list PromiseState;
}.

Definition initial_world : World :=
  {| live_versions := ∅; host_calls := []; version_id_map := ∅;
     heap := ∅; next_addr := 0; promises := [] |}.

Definition with_live_versions (l : gmap (ContextId * Z) ServiceWorkerVersion)
    (w : World) : World :=
  {| live_versions := l; host_calls := host_calls w;
     version_id_map := version_id_map w; heap := heap w;
     next_addr := next_addr w; promises := promises w |}.

Definition with_host_calls (l : list HostCall) (w : World) : World :=
  {| live_versions := live_versions w; host_calls := l;
     version_id_map := version_id_map w; heap := heap w;
     next_addr := next_addr w; promises := promises w |}.

Definition with_version_id_map (m : gmap ServiceWorkerKey Addr) (w : World)
    : World :=
  {| live_versions := live_versions w; host_calls := host_calls w;
     version_id_map := m; heap := heap w;
     next_addr := next_addr w; promises := promises w |}.

Definition with_heap (h : gmap Addr ServiceWorkerMain) (w : World) : World :=
  {| live_versions := live_versions w; host_calls := host_calls w;
     version_id_map := version_id_map w; heap := h;
     next_addr := next_addr w; promises := promises w |}.

Definition with_next_addr (n : Addr) (w : World) : World :=
  {| live_versions := live_versions w; host_calls := host_calls w;
     version_id_map := version_id_map w; heap := heap w;
     next_addr := n; promises := promises w |}.

Definition with_promises (l : list PromiseState) (w : World) : World :=
  {| live_versions := live_versions w; host_calls := host_calls w;
     version_id_map := version_id_map w; heap := heap w;
     next_addr := next_addr w; promises := l |}.

(** ** The monad of methods *)

Inductive Fault :=
  | NullDereference
  | UseAfterFree
  | RecursionLimit.

Inductive Res (A : Type) :=
  | Ok (a : A) (w : World)
  | Thrown (e : JsError) (w : World)
  | Crash (f : Fault).
Arguments Ok {A} a w.
Arguments Thrown {A} e w.
Arguments Crash {A} f.

Definition M (A : Type) : Type := World → Res A.

Definition ret {A} (a : A) : M A := λ w, Ok a w.

Definition bind {A B} (m : M A) (k : A → M B) : M B :=
  λ w, match m w with
       | Ok a w' => k a w'
       | Thrown e w' => Thrown e w'
       | Crash f => Crash f
       end.

Local Instance M_ret : MRet M := @ret.
Local Instance M_bind : MBind M := λ A B k m, bind m k.

(** [isolate->ThrowException(e); return;] *)
Definition ThrowException {A} (e : JsError) : M A := λ w, Thrown e w.

Definition crash {A} (f : Fault) : M A := λ _, Crash f.

(** Reading and writing the members of the object at [this]. *)
Definition load (this : Addr) : M ServiceWorkerMain :=
  λ w, match heap w !! this with
       | Some o => Ok o w
       | None => Crash UseAfterFree
       end.

Definition update (this : Addr) (f : ServiceWorkerMain → ServiceWorkerMain)
    : M unit :=
  λ w, match heap w !! this with
       | Some o => Ok tt (with_heap (<[this := f o]> (heap w)) w)
       | None => Crash UseAfterFree
       end.

(** [new] places the object at the next free address; [delete] releases
    its storage. *)
Definition allocate (o : ServiceWorkerMain) : M Addr :=
  λ w, Ok (next_addr w)
          (with_next_addr (S (next_addr w))
             (with_heap (<[next_addr w := o]> (heap w)) w)).

Definition release (this : Addr) : M unit :=
  λ w, Ok tt (with_heap (delete this (heap w)) w).

Definition host_call (c : HostCall) : M unit :=
  λ w, Ok tt (with_host_calls (host_calls w ++ [c]) w).

(** [gin_helper::Promise<void>(isolate)]: a fresh pending promise. *)
Definition new_promise : M PromiseId :=
  λ w, Ok (length (promises w)) (with_promises (promises w ++ [Pending]) w).

(** Settling a promise only has an effect while it is pending. *)
Definition settle (p : PromiseId) (s : PromiseState) : M unit :=
  λ w, match promises w !! p with
       | Some Pending => Ok tt (with_promises (<[p := s]> (promises w)) w)
       | _ => Ok tt w
       end.

Definition promise_state (w : World) (p : PromiseId) : option PromiseState :=
  promises w !! p.

(** ** Anonymous namespace: the live version of the host *)

Definition GetLiveVersion (service_worker_context : ContextId) (version_id : Z)
    : M (option ServiceWorkerVersion) :=
  λ w, Ok (live_versions w !! (service_worker_context, version_id)) w.

Definition GetLiveVersionInfo (service_worker_context : ContextId)
    (version_id : Z) : M (option ServiceWorkerVersionBaseInfo) :=
  version ← GetLiveVersion service_worker_context version_id;
  match version with
  | Some v => mret (Some (GetInfo v))
  | None => mret None
  end.

Definition IsLiveRunningServiceWorker (ctx : ContextId) (version_id : Z)
    : M bool :=
  version ← GetLiveVersion ctx version_id;
  mret (match version with
       | Some v => is_running (running_status v)
       | None => false
       end).

Definition IsLiveStartingServiceWorker (ctx : ContextId) (version_id : Z)
    : M bool :=
  version ← GetLiveVersion ctx version_id;
  mret (match version with
       | Some v => is_starting (running_status v)
       | None => false
       end).

(** ** The registry *)

Definition FromServiceWorkerKey (key : ServiceWorkerKey) : M (option Addr) :=
  λ w, Ok (version_id_map w !! key) w.

Definition FromVersionID (version_id : Z) (storage_partition : PartitionId)
    : M (option Addr) :=
  FromServiceWorkerKey
    {| key_version_id := version_id;
       key_storage_partition := storage_partition |}.

(** [std::unordered_map::emplace] keeps an existing entry. *)
Definition emplace (key : ServiceWorkerKey) (this : Addr) : M unit :=
  λ w, match version_id_map w !! key with
       | Some _ => Ok tt w
       | None => Ok tt (with_version_id_map (<[key := this]> (version_id_map w)) w)
       end.

Definition erase (key : ServiceWorkerKey) : M unit :=
  λ w, Ok tt (with_version_id_map (delete key (version_id_map w)) w).

(** Modelled from the spec: [gin_helper::Pinnable::Pin] and [Unpin] are
    declared outside the sources; the pin is the strong self-reference
    that keeps the proxy alive, released on destruction. *)
Definition Pin (this : Addr) : M unit := update this (set_pinned true).
Definition Unpin (this : Addr) : M unit := update this (set_pinned false).

(** Modelled from the spec: the accessor [version_info()] of the header
    hands out the cached snapshot; following the pointer when the
    snapshot is absent is a null dereference. *)
Definition version_info_scope (this : Addr) : M GURL :=
  o ← load this;
  match version_info_ o with
  | Some i => mret (scope i)
  | None => crash NullDereference
  end.

(** ** Destruction and the metadata snapshot

    [Destroy] and [InvalidateVersionInfo] call each other in the source.
    The body of [InvalidateVersionInfo] takes its callee as an argument
    and the knot is tied by a call-depth budget; [Destroy_fuel_stable]
    below shows that depth one is never exceeded. *)

Definition InvalidateVersionInfo_body (Destroy : Addr → M unit) (this : Addr)
    : M unit :=
  o ← load this;
  (match version_info_ o with
   | Some _ => update this (set_version_info None)
   | None => mret tt
   end) ;;
  o ← load this;
  if version_destroyed_ o then mret tt
  else
    version_info ←
      GetLiveVersionInfo (service_worker_context_ o) (version_id_ o);
    match version_info with
    | Some i => update this (set_version_info (Some i))
    | None => Destroy this
    end.

Fixpoint Destroy_fuel (depth : nat) (this : Addr) : M unit :=
  match depth with
  | O => crash RecursionLimit
  | S depth =>
      update this (set_version_destroyed true) ;;
      InvalidateVersionInfo_body (Destroy_fuel depth) this ;;
      o ← load this;
      erase (key_ o) ;;
      Unpin this
  end.

Definition Destroy (this : Addr) : M unit := Destroy_fuel 2 this.

Definition InvalidateVersionInfo (this : Addr) : M unit :=
  InvalidateVersionInfo_body Destroy this.

(** ** Constructor and destructor *)

Definition new_ServiceWorkerMain (sw_context : ContextId) (version_id : Z)
    (key : ServiceWorkerKey) : M Addr :=
  this ← allocate
    {| version_id_ := version_id; key_ := key;
       service_worker_context_ := sw_context;
       version_destroyed_ := false; version_info_ := None;
       remote_ := None; start_worker_promise_ := None;
       pinned_ := false |};
  emplace key this ;;
  InvalidateVersionInfo this ;;
  mret this.

(** [~ServiceWorkerMain] followed by the release of the storage. *)
Definition delete_ServiceWorkerMain (this : Addr) : M unit :=
  Destroy this ;;
  release this.

(** ** Messaging *)

Definition GetRendererApi (this : Addr) : M (option (ContextId * Z)) :=
  o ← load this;
  match remote_ o with
  | Some r => mret (Some r)
  | None =>
      running ←
        IsLiveRunningServiceWorker (service_worker_context_ o) (version_id_ o);
      if negb running then mret None
      else
        host_call (GetRemoteAssociatedInterface
                     (service_worker_context_ o) (version_id_ o)) ;;
        update this
          (set_remote (Some (service_worker_context_ o, version_id_ o))) ;;
        o ← load this;
        mret (remote_ o)
  end.

Definition Send (this : Addr) (internal : bool) (channel : string)
    (args : V8Value) : M unit :=
  match ConvertFromV8 args with
  | None => ThrowException (Error serialize_message)
  | Some message =>
      renderer_api_remote ← GetRendererApi this;
      match renderer_api_remote with
      | None => mret tt
      | Some r => host_call (Message r internal channel message)
      end
  end.

(** ** Status notifications *)

Definition OnRunningStatusChanged (this : Addr) : M unit :=
  InvalidateVersionInfo this ;;
  o ← load this;
  starting ←
    IsLiveStartingServiceWorker (service_worker_context_ o) (version_id_ o);
  running ←
    IsLiveRunningServiceWorker (service_worker_context_ o) (version_id_ o);
  if bool_decide (is_Some (remote_ o)) && negb starting && negb running
  then update this (set_remote None)
  else mret tt.

Definition OnVersionRedundant (this : Addr) : M unit := Destroy this.

Definition IsDestroyed (this : Addr) : M bool :=
  o ← load this; mret (version_destroyed_ o).

(** ** Scope and storage key *)

Definition GetStorageKey (this : Addr) : M StorageKey :=
  scope_url ← version_info_scope this;
  mret (CreateFirstParty (OriginCreate scope_url)).

Definition ScopeURL (this : Addr) : M GURL :=
  o ← load this;
  if version_destroyed_ o then mret EmptyGURL
  else version_info_scope this.

Definition VersionID (this : Addr) : M Z :=
  o ← load this; mret (version_id_ o).

(** ** Starting and stopping the worker *)

Definition StartWorker (this : Addr) : M PromiseId :=
  o ← load this;
  if version_destroyed_ o then
    promise ← new_promise;
    settle promise (Rejected (Error destroyed_message)) ;;
    mret promise
  else
    match start_worker_promise_ o with
    | Some p => mret p
    | None =>
        p ← new_promise;
        update this (set_start_worker_promise (Some p)) ;;
        scope_url ← ScopeURL this;
        key ← GetStorageKey this;
        host_call (StartWorkerForScope (service_worker_context_ o)
                     scope_url key this) ;;
        o ← load this;
        match start_worker_promise_ o with
        | Some p => mret p
        | None => crash NullDereference
        end
    end.

(** The two completion callbacks are bound through a weak pointer: once
    the proxy has been deleted they are not run. *)
Definition DidStartWorkerForScope (this : Addr) (version_id : Z)
    (process_id thread_id : Z) : M unit :=
  λ w, match heap w !! this with
       | None => Ok tt w
       | Some o =>
           match start_worker_promise_ o with
           | None => Crash NullDereference
           | Some p =>
               (settle p Fulfilled ;;
                update this (set_start_worker_promise None)) w
           end
       end.

Definition DidStartWorkerFail (this : Addr) (status_code : Z) : M unit :=
  λ w, match heap w !! this with
       | None => Ok tt w
       | Some o =>
           match start_worker_promise_ o with
           | None => Crash NullDereference
           | Some p =>
               (settle p (Rejected (Error start_failed_message)) ;;
                update this (set_start_worker_promise None)) w
           end
       end.

Definition StopWorker (this : Addr) : M unit :=
  o ← load this;
  key ← GetStorageKey this;
  host_call (StopAllServiceWorkersForStorageKey (service_worker_context_ o) key).

(** ** External requests *)

Record ExternalRequestDetails := {
  details_id : string;
  details_ok : bool;
}.

(** [request_uuid] is the value drawn by [base::Uuid::GenerateRandomV4],
    [start_result] the answer of the host. *)
Definition StartExternalRequest (this : Addr) (has_timeout : bool)
    (request_uuid : Uuid) (start_result : ExternalRequestResult)
    : M ExternalRequestDetails :=
  o ← load this;
  if version_destroyed_ o then ThrowException (TypeError destroyed_message)
  else
    let timeout_type := if has_timeout then kDefault else kDoesNotTimeout in
    host_call (StartingExternalRequest (service_worker_context_ o)
                 (version_id_ o) timeout_type request_uuid) ;;
    mret {| details_id := AsLowercaseString request_uuid;
           details_ok := is_kOk start_result |}.

Definition FinishExternalRequest (this : Addr) (uuid : string) : M unit :=
  o ← load this;
  if version_destroyed_ o then ThrowException (TypeError destroyed_message)
  else
    let request_uuid := ParseLowercase uuid in
    if negb (is_valid request_uuid)
    then ThrowException (TypeError invalid_uuid_message)
    else host_call (FinishedExternalRequest (service_worker_context_ o)
                      (version_id_ o) request_uuid).

(** [count] is the number the host reports for the storage key. *)
Definition CountExternalRequests (this : Addr) (count : nat) : M nat :=
  o ← load this;
  storage_key ← GetStorageKey this;
  host_call (CountExternalRequestsForTest (service_worker_context_ o)
               storage_key) ;;
  mret count.

(** ** Lookup or creation *)

Definition From (sw_context : ContextId) (storage_partition : PartitionId)
    (version_id : Z) : M (option Addr) :=
  let service_worker_key :=
    {| key_version_id := version_id;
       key_storage_partition := storage_partition |} in
  service_worker ← FromServiceWorkerKey service_worker_key;
  match service_worker with
  | Some a => mret (Some a)
  | None =>
      live_version ← GetLiveVersion sw_context version_id;
      match live_version with
      | None => mret None
      | Some v =>
          if is_redundant v then mret None
          else
            handle ←
              new_ServiceWorkerMain sw_context version_id service_worker_key;
            Pin handle ;;
            mret (Some handle)
      end
  end.

(** ** Operations of the script, the host and the collector *)

Inductive Op :=
  | OpFrom (sw_context : ContextId) (storage_partition : PartitionId)
           (version_id : Z)
  | OpSend (this : Addr) (internal : bool) (channel : string) (args : V8Value)
  | OpOnRunningStatusChanged (this : Addr)
  | OpOnVersionRedundant (this : Addr)
  | OpIsDestroyed (this : Addr)
  | OpStartWorker (this : Addr)
  | OpDidStartWorkerForScope (this : Addr) (version_id process_id thread_id : Z)
  | OpDidStartWorkerFail (this : Addr) (status_code : Z)
  | OpStopWorker (this : Addr)
  | OpStartExternalRequest (this : Addr) (has_timeout : bool)
                           (request_uuid : Uuid)
                           (start_result : ExternalRequestResult)
  | OpFinishExternalRequest (this : Addr) (uuid : string)
  | OpCountExternalRequests (this : Addr) (count : nat)
  | OpVersionID (this : Addr)
  | OpScopeURL (this : Addr)
  | OpDelete (this : Addr)
  | OpHost (versions : gmap (ContextId * Z) ServiceWorkerVersion).

Definition discard {A} (m : M A) : M unit := m ;; mret tt.

(** The host changes its live versions at will. *)
Definition host_step (versions : gmap (ContextId * Z) ServiceWorkerVersion)
    : M unit :=
  λ w, Ok tt (with_live_versions versions w).

Definition exec (op : Op) : M unit :=
  match op with
  | OpFrom c p v => discard (From c p v)
  | OpSend a i c v => Send a i c v
  | OpOnRunningStatusChanged a => OnRunningStatusChanged a
  | OpOnVersionRedundant a => OnVersionRedundant a
  | OpIsDestroyed a => discard (IsDestroyed a)
  | OpStartWorker a => discard (StartWorker a)
  | OpDidStartWorkerForScope a v p t => DidStartWorkerForScope a v p t
  | OpDidStartWorkerFail a c => DidStartWorkerFail a c
  | OpStopWorker a => StopWorker a
  | OpStartExternalRequest a t u r => discard (StartExternalRequest a t u r)
  | OpFinishExternalRequest a u => FinishExternalRequest a u
  | OpCountExternalRequests a n => discard (CountExternalRequests a n)
  | OpVersionID a => discard (VersionID a)
  | OpScopeURL a => discard (ScopeURL a)
  | OpDelete a => delete_ServiceWorkerMain a
  | OpHost l => host_step l
  end.

(** How often the host was asked to start a worker. *)
Definition start_calls (w : World) : nat :=
  length (List.filter is_start_call (host_calls w)).

(** The world an operation leaves behind, when the process survives it. *)
Definition world_of {A} (r : Res A) : option World :=
  match r with
  | Ok _ w => Some w
  | Thrown _ w => Some w
  | Crash _ => None
  end.

Inductive reachable : World → Prop :=
  | reachable_initial : reachable initial_world
  | reachable_step op w w' :
      reachable w → world_of (exec op w) = Some w' → reachable w'.

Fixpoint run (ops : list Op) (w : World) : option World :=
  match ops with
  | [] => Some w
  | op :: ops =>
      match world_of (exec op w) with
      | Some w' => run ops w'
      | None => None
      end
  end.

Definition survives (ops : list Op) (w : World) : bool :=
  match run ops w with Some _ => true | None => false end.

(** The cached snapshot is present exactly on the proxies that are not
    destroyed. *)
Definition snapshot_consistent (o : ServiceWorkerMain) : Prop :=
  version_info_ o = None ↔ version_destroyed_ o = true.

Definition snapshot_invariant (w : World) : Prop :=
  ∀ this o, heap w !! this = Some o → snapshot_consistent o.

(** The object [Destroy] leaves behind. *)
Definition destroyed (o : ServiceWorkerMain) : ServiceWorkerMain :=
  {| version_id_ := version_id_ o; key_ := key_ o;
     service_worker_context_ := service_worker_context_ o;
     version_destroyed_ := true; version_info_ := None;
     remote_ := remote_ o; start_worker_promise_ := start_worker_promise_ o;
     pinned_ := false |}.

Definition after_destroy (this : Addr) (o : ServiceWorkerMain) (w : World)
    : World :=
  with_heap (<[this := destroyed o]> (heap w))
    (with_version_id_map (delete (key_ o) (version_id_map w)) w).

(** ** Well-formedness of the object graph *)

(** Objects live below the allocation pointer. *)
Definition heap_bounded (w : World) : Prop :=
  ∀ a o, heap w !! a = Some o → (a < next_addr w)%nat.

(** A registry entry leads to an existing proxy that carries the key of
    the entry and is not destroyed. *)
Definition registry_sound (w : World) : Prop :=
  ∀ k a, version_id_map w !! k = Some a →
    ∃ o, heap w !! a = Some o ∧ key_ o = k ∧ version_destroyed_ o = false.

(** The pin is held exactly while the proxy is not destroyed, and the key
    names the version of the proxy. *)
Definition proxy_consistent (o : ServiceWorkerMain) : Prop :=
  pinned_ o = negb (version_destroyed_ o)
  ∧ key_version_id (key_ o) = version_id_ o.

Definition well_formed (w : World) : Prop :=
  heap_bounded w ∧ registry_sound w
  ∧ ∀ a o, heap w !! a = Some o → proxy_consistent o.

(** What may happen to one proxy over time: its identity stays, and the
    destroyed flag is never taken back. *)
Definition same_proxy (o o' : ServiceWorkerMain) : Prop :=
  version_id_ o' = version_id_ o
  ∧ key_ o' = key_ o
  ∧ service_worker_context_ o' = service_worker_context_ o
  ∧ (version_destroyed_ o = true → version_destroyed_ o' = true).

(** How a later world relates to an earlier one: the allocation pointer
    only advances, a released address stays empty, and an object that is
    still there is the same proxy. *)
Definition evolves (w w' : World) : Prop :=
  (next_addr w ≤ next_addr w')%nat
  ∧ (∀ a, (a < next_addr w)%nat → heap w !! a = None →
       heap w' !! a = None)
  ∧ (∀ a o o', heap w !! a = Some o → heap w' !! a = Some o' →
       same_proxy o o').

(** The ways one operation can change the heap and the registry: not at
    all; one proxy updated in place with identity, destroyed flag and pin
    untouched; one proxy destroyed and its key erased; one proxy released;
    one proxy created under a key that was free. *)
Inductive effect (w w' : World) : Prop :=
  | effect_quiet :
      heap w' = heap w → version_id_map w' = version_id_map w →
      next_addr w' = next_addr w → effect w w'
  | effect_touched this o o' :
      heap w !! this = Some o →
      heap w' = <[this := o']> (heap w) →
      version_id_map w' = version_id_map w →
      next_addr w' = next_addr w →
      version_id_ o' = version_id_ o → key_ o' = key_ o →
      service_worker_context_ o' = service_worker_context_ o →
      version_destroyed_ o' = version_destroyed_ o →
      pinned_ o' = pinned_ o →
      effect w w'
  | effect_destroyed this o o' :
      heap w !! this = Some o →
      heap w' = <[this := o']> (heap w) →
      version_id_map w' = delete (key_ o) (version_id_map w) →
      next_addr w' = next_addr w →
      version_id_ o' = version_id_ o → key_ o' = key_ o →
      service_worker_context_ o' = service_worker_context_ o →
      version_destroyed_ o' = true → pinned_ o' = false →
      effect w w'
  | effect_released this o :
      heap w !! this = Some o →
      heap w' = delete this (heap w) →
      version_id_map w' = delete (key_ o) (version_id_map w) →
      next_addr w' = next_addr w →
      effect w w'
  | effect_created o' :
      version_id_map w !! key_ o' = None →
      heap w' = <[next_addr w := o']> (heap w) →
      version_id_map w' = <[key_ o' := next_addr w]> (version_id_map w) →
      next_addr w' = S (next_addr w) →
      version_destroyed_ o' = false → pinned_ o' = true →
      key_version_id (key_ o') = version_id_ o' →
      effect w w'.

(** The proxy [From] constructs and the world it leaves. *)
Definition fresh_proxy (sw_context : ContextId) (key : ServiceWorkerKey)
    (version_id : Z) (i : ServiceWorkerVersionBaseInfo) : ServiceWorkerMain :=
  {| version_id_ := version_id; key_ := key;
     service_worker_context_ := sw_context;
     version_destroyed_ := false; version_info_ := Some i;
     remote_ := None; start_worker_promise_ := None; pinned_ := true |}.

Definition after_create (o : ServiceWorkerMain) (w : World) : World :=
  with_next_addr (S (next_addr w))
    (with_heap (<[next_addr w := o]> (heap w))
       (with_version_id_map (<[key_ o := next_addr w]> (version_id_map w)) w)).

(** The operations that cannot fault in a reachable world: the target
    exists, [StopWorker] and [CountExternalRequests] are not asked of a
    destroyed proxy, and a completion arrives only for a start in flight. *)
Definition faultless (op : Op) (w : World) : Prop :=
  match op with
  | OpFrom _ _ _ | OpHost _ => True
  | OpDidStartWorkerForScope a _ _ _ | OpDidStartWorkerFail a _ =>
      ∀ o, heap w !! a = Some o → is_Some (start_worker_promise_ o)
  | OpStopWorker a | OpCountExternalRequests a _ =>
      ∃ o, heap w !! a = Some o ∧ version_destroyed_ o = false
  | OpSend a _ _ _ | OpOnRunningStatusChanged a | OpOnVersionRedundant a
  | OpIsDestroyed a | OpStartWorker a | OpStartExternalRequest a _ _ _
  | OpFinishExternalRequest a _ | OpVersionID a | OpScopeURL a
  | OpDelete a => is_Some (heap w !! a)
  end.

End Model.

Arguments Ok {_ _} a w.
Arguments Thrown {_ _} e w.
Arguments Crash {_ _} f.

(** ** A concrete instance of the collaborators

    Values are strings (which serialise) or functions (which do not); a
    UUID is kept in its canonical lowercase form, the invalid one being
    the empty string. *)

Inductive SampleValue :=
  | SampleString (s : string)
  | SampleFunction.

Definition is_lower_hex (c : Ascii.ascii) : bool :=
  let n := nat_of_ascii c in
  (((48 <=? n) && (n <=? 57)) || ((97 <=? n) && (n <=? 102)))%nat.

Fixpoint canonical_from (position : nat) (s : string) : bool :=
  match s with
  | EmptyString => (position =? 36)%nat
  | String c rest =>
      (if ((position =? 8) || (position =? 13) || (position =? 18)
           || (position =? 23))%nat
       then (nat_of_ascii c =? 45)%nat
       else is_lower_hex c)
      && canonical_from (S position) rest
  end.

Definition sample_collaborators : Collaborators :=
  {| V8Value := SampleValue;
     CloneableMessage := string;
     ConvertFromV8 := λ v, match v with
                           | SampleString s => Some s
                           | SampleFunction => None
                           end;
     Uuid := string;
     ParseLowercase := λ s, if canonical_from 0 s then s else EmptyString;
     is_valid := λ u, negb (bool_decide (u = EmptyString));
     AsLowercaseString := λ u, u |}.

Definition sample_scope : GURL := "https://example.test/app/".

Definition worker7 : ServiceWorkerVersion :=
  {| GetInfo := {| scope := sample_scope; registration_id := 1 |};
     is_redundant := false;
     running_status := kRunning |}.

Definition host_with_worker7 : gmap (ContextId * Z) ServiceWorkerVersion :=
  {[ (0, 7%Z) := worker7 ]}.

Definition key7 : ServiceWorkerKey :=
  {| key_version_id := 7; key_storage_partition := 0 |}.

Definition sample_token : string := "123e4567-e89b-42d3-a456-426614174000".

Section Scenarios.
Local Existing Instance sample_collaborators.

Definition after_ops (ops : list Op) : World :=
  default initial_world (run ops initial_world).

(** A proxy for version 7 has been looked up while its worker is live. *)
Definition live_ops : list Op :=
  [OpHost host_with_worker7; OpFrom 0 0 7].

(** The host then reports the version redundant. *)
Definition redundant_ops : list Op :=
  live_ops ++ [OpOnVersionRedundant 0].

(** A message has been sent, binding the channel, before the version
    became redundant. *)
Definition sent_then_redundant_ops : list Op :=
  live_ops ++ [OpSend 0 false "ping" (SampleString "hello");
               OpOnVersionRedundant 0].

(** The live version disappears, the proxy at address 0 destroys itself;
    the version is loaded again and a second proxy is created for the same
    key while the first object still awaits collection. *)
Definition successor_ops : list Op :=
  live_ops ++ [OpHost ∅; OpOnRunningStatusChanged 0;
               OpHost host_with_worker7; OpFrom 0 0 7].

(** The live version has vanished from the host; the proxy has not been
    told yet. *)
Definition vanished_ops : list Op := live_ops ++ [OpHost ∅].

(** The version became redundant and then vanished from the host. *)
Definition redundant_gone_ops : list Op := redundant_ops ++ [OpHost ∅].

(** A channel was bound, then the version became redundant and vanished. *)
Definition sent_redundant_gone_ops : list Op :=
  sent_then_redundant_ops ++ [OpHost ∅].

(** A channel was bound, then the live version vanished from the host
    before any status notification reached the proxy. *)
Definition sent_vanished_ops : list Op :=
  live_ops ++ [OpSend 0 false "ping" (SampleString "hello"); OpHost ∅].

(** The worker of version 7 has stopped; the version is still live. *)
Definition worker7_stopped : ServiceWorkerVersion :=
  {| GetInfo := {| scope := sample_scope; registration_id := 1 |};
     is_redundant := false;
     running_status := kStopped |}.

Definition host_with_worker7_stopped
    : gmap (ContextId * Z) ServiceWorkerVersion :=
  {[ (0, 7%Z) := worker7_stopped ]}.

(** A channel was bound, then the worker stopped. *)
Definition sent_stopped_ops : list Op :=
  live_ops ++ [OpSend 0 false "ping" (SampleString "hello");
               OpHost host_with_worker7_stopped].

(** The proxy [From] builds for version 7, and the same proxy once a
    message has bound its channel. *)
Definition proxy7 : ServiceWorkerMain :=
  {| version_id_ := 7; key_ := key7; service_worker_context_ := 0;
     version_destroyed_ := false; version_info_ := Some (GetInfo worker7);
     remote_ := None; start_worker_promise_ := None; pinned_ := true |}.

Definition proxy7_bound : ServiceWorkerMain :=
  set_remote (Some (0, 7%Z)) proxy7.

End Scenarios.

(** * Basic facts *)

Ltac munfold :=
  repeat progress
    unfold mbind, M_bind, bind, mret, M_ret, ret, load, update, host_call,
      erase, emplace, crash, ThrowException, GetLiveVersionInfo,
      IsLiveRunningServiceWorker, IsLiveStartingServiceWorker, GetLiveVersion,
      FromServiceWorkerKey, Pin, Unpin, allocate, release, new_promise,
      settle, discard, host_step, version_info_scope in *.

Ltac crunch :=
  repeat (first
    [ progress simplify_eq/=
    | progress (rewrite ?lookup_insert_eq, ?insert_insert_eq in * )
    | match goal with
      | E : ?m !! ?k = _, Hr : context [?m !! ?k] |- _ => rewrite E in Hr
      | Hr : context [match ?x with _ => _ end] |- _ =>
          let E := fresh "E" in destruct x eqn:E
      end ]).

Ltac mstep :=
  repeat (simpl; rewrite ?lookup_insert_eq, ?insert_insert_eq;
          try match goal with
              | E : ?m !! ?k = _ |- context [?m !! ?k] => rewrite E
              end).

Section Properties.
Context `{Collaborators}.

Lemma run_reachable ops w w' : reachable w → run ops w = Some w' → reachable w'.
Proof.
  revert w. induction ops as [|op ops IH]; simpl; intros w Hw Hrun.
  - by inversion Hrun; subst.
  - destruct (world_of (exec op w)) as [w1|] eqn:E; [|done].
    eapply IH; [|exact Hrun]. by eapply reachable_step.
Qed.

Lemma Destroy_fuel_spec depth this o w :
  heap w !! this = Some o →
  Destroy_fuel (S depth) this w = Ok tt (after_destroy this o w).
Proof.
  intros Ho. unfold after_destroy. simpl.
  unfold InvalidateVersionInfo_body. munfold. rewrite Ho.
  destruct w, o as [? ? ? ? [i|] ? ? ?]; mstep; done.
Qed.

Lemma Destroy_spec this o w :
  heap w !! this = Some o → Destroy this w = Ok tt (after_destroy this o w).
Proof. apply Destroy_fuel_spec. Qed.

(** The mutual recursion of the source never goes deeper than one call:
    any budget of at least one gives the same result, and that result is a
    normal return. *)
Lemma Destroy_fuel_stable depth this w :
  Destroy_fuel (S depth) this w = Destroy_fuel 1 this w.
Proof.
  destruct (heap w !! this) as [o|] eqn:Ho.
  - by rewrite !(Destroy_fuel_spec _ _ o).
  - simpl. munfold. by rewrite Ho.
Qed.

Lemma Destroy_within_budget this w : Destroy this w ≠ Crash RecursionLimit.
Proof.
  destruct (heap w !! this) as [o|] eqn:Ho.
  - by rewrite (Destroy_spec _ o).
  - unfold Destroy. simpl. munfold. by rewrite Ho.
Qed.

Lemma InvalidateVersionInfo_spec this o w :
  heap w !! this = Some o →
  InvalidateVersionInfo this w =
    if version_destroyed_ o
    then Ok tt (with_heap (<[this := set_version_info None o]> (heap w)) w)
    else match live_versions w !! (service_worker_context_ o, version_id_ o) with
         | Some v =>
             Ok tt (with_heap
                      (<[this := set_version_info (Some (GetInfo v)) o]>
                         (heap w)) w)
         | None => Ok tt (after_destroy this o w)
         end.
Proof.
  intros Ho. unfold InvalidateVersionInfo, InvalidateVersionInfo_body.
  munfold. rewrite Ho.
  destruct w as [lv hc vm hp na pr], o as [vid k ctx [|] [i|] r sp pin];
    simpl in *; mstep; try done.
  - unfold with_heap; simpl. f_equal. f_equal. symmetry. by apply insert_id.
  - destruct (lv !! (ctx, vid)) as [v|] eqn:Ev; mstep; [done|].
    unfold Destroy. erewrite Destroy_fuel_spec by (simpl; apply lookup_insert_eq).
    unfold after_destroy, destroyed; simpl. by rewrite insert_insert_eq.
  - destruct (lv !! (ctx, vid)) as [v|] eqn:Ev; mstep; [done|].
    unfold Destroy. by erewrite Destroy_fuel_spec by (simpl; apply Ho).
Qed.

(** ** The snapshot invariant *)

Lemma invariant_initial : snapshot_invariant initial_world.
Proof. intros a o Ho. simpl in Ho. by rewrite lookup_empty in Ho. Qed.

Lemma invariant_heap w w' :
  heap w' = heap w → snapshot_invariant w → snapshot_invariant w'.
Proof. unfold snapshot_invariant. intros ->. done. Qed.

Lemma invariant_insert w w' this o :
  heap w' = <[this := o]> (heap w) →
  snapshot_consistent o → snapshot_invariant w → snapshot_invariant w'.
Proof.
  unfold snapshot_invariant. intros -> Ho Hw a o' Hl.
  apply lookup_insert_Some in Hl as [[_ <-]|[_ Hl]]; eauto.
Qed.

Lemma invariant_delete w w' this :
  heap w' = delete this (heap w) →
  snapshot_invariant w → snapshot_invariant w'.
Proof.
  unfold snapshot_invariant. intros -> Hw a o' Hl.
  apply lookup_delete_Some in Hl as [_ Hl]. eauto.
Qed.

Lemma consistent_destroyed o : snapshot_consistent (destroyed o).
Proof. by split. Qed.

Lemma invariant_after_destroy this o w :
  snapshot_invariant w → snapshot_invariant (after_destroy this o w).
Proof.
  intros Hw. eapply (invariant_insert w _ this (destroyed o));
    [done | apply consistent_destroyed | done].
Qed.

Lemma InvalidateVersionInfo_invariant this w r :
  snapshot_invariant w →
  world_of (InvalidateVersionInfo this w) = Some r → snapshot_invariant r.
Proof.
  intros Hw Hr. destruct (heap w !! this) as [o|] eqn:Ho.
  - rewrite (InvalidateVersionInfo_spec _ o) in Hr by done.
    pose proof (Hw _ _ Ho) as Hc.
    destruct (version_destroyed_ o) eqn:Ed; simpl in Hr.
    + inversion Hr; subst. eapply invariant_insert; [done| |done].
      unfold snapshot_consistent. simpl. by rewrite Ed.
    + destruct (live_versions w !! _) as [v|]; inversion Hr; subst.
      * eapply invariant_insert; [done| |done].
        unfold snapshot_consistent. simpl. rewrite Ed. by split.
      * by apply invariant_after_destroy.
  - unfold InvalidateVersionInfo, InvalidateVersionInfo_body in Hr.
    munfold. by rewrite Ho in Hr.
Qed.

Ltac invariant_kept Hw :=
  first
    [ exact Hw
    | eapply invariant_heap; [simpl; reflexivity | exact Hw]
    | eapply invariant_insert;
      [ simpl; reflexivity
      | match goal with
        | E : heap _ !! _ = Some ?o |- _ =>
            pose proof (Hw _ _ E) as Hc;
            unfold snapshot_consistent in *; simpl; exact Hc
        end
      | exact Hw ] ].

Lemma From_invariant c p v w r :
  snapshot_invariant w →
  world_of (From c p v w) = Some r → snapshot_invariant r.
Proof.
  intros Hw Hr. unfold From, new_ServiceWorkerMain in Hr. munfold.
  destruct (version_id_map w !! _) as [a|] eqn:Ek; simpl in Hr; [by simplify_eq|].
  destruct (live_versions w !! (c, v)) as [lv|] eqn:El; simpl in Hr;
    [|by simplify_eq].
  destruct (is_redundant lv); simpl in Hr; [by simplify_eq|].
  rewrite Ek in Hr. simpl in Hr.
  erewrite InvalidateVersionInfo_spec in Hr by (simpl; apply lookup_insert_eq).
  simpl in Hr. rewrite El in Hr. simpl in Hr.
  rewrite !lookup_insert_eq in Hr. simpl in Hr. simplify_eq.
  rewrite !insert_insert_eq.
  eapply invariant_insert; [simpl; reflexivity| |exact Hw].
  by split.
Qed.

Lemma OnRunningStatusChanged_invariant this w r :
  snapshot_invariant w →
  world_of (OnRunningStatusChanged this w) = Some r → snapshot_invariant r.
Proof.
  intros Hw Hr. unfold OnRunningStatusChanged in Hr.
  unfold mbind, M_bind, bind in Hr.
  destruct (InvalidateVersionInfo this w) as [[] w1|e w1|f] eqn:Ei;
    simpl in Hr; [| |done].
  - assert (snapshot_invariant w1) as Hw1
      by (eapply InvalidateVersionInfo_invariant; [exact Hw|by rewrite Ei]).
    clear Ei. munfold. crunch; invariant_kept Hw1.
  - simplify_eq. eapply InvalidateVersionInfo_invariant; [exact Hw|by rewrite Ei].
Qed.

Lemma Destroy_invariant this w r :
  snapshot_invariant w →
  world_of (Destroy this w) = Some r → snapshot_invariant r.
Proof.
  intros Hw Hr. destruct (heap w !! this) as [o|] eqn:Ho.
  - rewrite (Destroy_spec _ o) in Hr by done. simplify_eq/=.
    by apply invariant_after_destroy.
  - unfold Destroy in Hr. simpl in Hr. munfold. by rewrite Ho in Hr.
Qed.

Lemma exec_invariant op w w' :
  snapshot_invariant w →
  world_of (exec op w) = Some w' → snapshot_invariant w'.
Proof.
  intros Hw Hr. destruct op; simpl in Hr.
  - unfold discard, mbind, M_bind, bind in Hr.
    destruct (From _ _ _ w) as [a w1|e w1|f] eqn:Ef; simpl in Hr;
      simplify_eq; eapply From_invariant; try exact Hw; by rewrite Ef.
  - unfold Send, GetRendererApi in Hr. munfold. crunch; invariant_kept Hw.
  - by eapply OnRunningStatusChanged_invariant.
  - by eapply Destroy_invariant.
  - unfold IsDestroyed in Hr. munfold. crunch; invariant_kept Hw.
  - unfold StartWorker, ScopeURL, GetStorageKey in Hr. munfold.
    crunch; invariant_kept Hw.
  - unfold DidStartWorkerForScope in Hr. munfold. crunch; invariant_kept Hw.
  - unfold DidStartWorkerFail in Hr. munfold. crunch; invariant_kept Hw.
  - unfold StopWorker, GetStorageKey in Hr. munfold. crunch; invariant_kept Hw.
  - unfold StartExternalRequest in Hr. munfold. crunch; invariant_kept Hw.
  - unfold FinishExternalRequest in Hr. munfold. crunch; invariant_kept Hw.
  - unfold CountExternalRequests, GetStorageKey in Hr. munfold.
    crunch; invariant_kept Hw.
  - unfold VersionID in Hr. munfold. crunch; invariant_kept Hw.
  - unfold ScopeURL in Hr. munfold. crunch; invariant_kept Hw.
  - unfold delete_ServiceWorkerMain, mbind, M_bind, bind in Hr.
    destruct (Destroy this w) as [[] w1|e w1|f] eqn:Ed; simpl in Hr;
      [| |done].
    + unfold release in Hr. simplify_eq/=.
      eapply invariant_delete; [simpl; reflexivity|].
      eapply Destroy_invariant; [exact Hw|by rewrite Ed].
    + simplify_eq. eapply Destroy_invariant; [exact Hw|by rewrite Ed].
  - unfold host_step in Hr. simplify_eq/=. invariant_kept Hw.
Qed.

Lemma reachable_invariant w : reachable w → snapshot_invariant w.
Proof.
  induction 1 as [|op w w' _ IH Hstep].
  - apply invariant_initial.
  - by eapply exec_invariant.
Qed.

(** C9: in every world reachable through the operations of the script, the
    host and the collector, each proxy holds a metadata snapshot exactly
    when it is not destroyed. *)
Theorem snapshot_iff_not_destroyed w this o :
  reachable w → heap w !! this = Some o →
  (is_Some (version_info_ o) ↔ version_destroyed_ o = false).
Proof.
  intros Hr Ho. rewrite <- not_eq_None_Some.
  destruct (reachable_invariant w Hr _ _ Ho) as [Hnone Hdestroyed].
  destruct (version_destroyed_ o); split; intros Hx.
  - by destruct Hx; apply Hdestroyed.
  - done.
  - done.
  - intros Hn. by specialize (Hnone Hn).
Qed.

(** ** Destruction *)

Lemma IsDestroyed_spec this o w :
  heap w !! this = Some o → IsDestroyed this w = Ok (version_destroyed_ o) w.
Proof. intros Ho. unfold IsDestroyed. munfold. by rewrite Ho. Qed.

Lemma ScopeURL_destroyed this o w :
  heap w !! this = Some o → version_destroyed_ o = true →
  ScopeURL this w = Ok EmptyGURL w.
Proof. intros Ho Hd. unfold ScopeURL. munfold. by rewrite Ho, Hd. Qed.

Lemma Destroy_idempotent this w w1 :
  Destroy this w = Ok tt w1 → Destroy this w1 = Ok tt w1.
Proof.
  intros Hd. destruct (heap w !! this) as [o|] eqn:Ho.
  - rewrite (Destroy_spec _ o) in Hd by done. simplify_eq.
    rewrite (Destroy_spec _ (destroyed o)) by (simpl; apply lookup_insert_eq).
    unfold after_destroy, destroyed. destruct w; simpl. f_equal.
    unfold with_heap, with_version_id_map; simpl.
    by rewrite insert_insert_eq, delete_delete_eq.
  - unfold Destroy in Hd. simpl in Hd. munfold. by rewrite Ho in Hd.
Qed.

(** C7: once [Destroy] has run, through the redundancy notification or
    through a status change that finds no live version, the registry has
    no entry under the key of the proxy, [IsDestroyed] answers true and
    [ScopeURL] is the empty URL. *)
Theorem destroy_clears_registry_and_scope this o w :
  heap w !! this = Some o →
  (∃ w', OnVersionRedundant this w = Ok tt w'
         ∧ version_id_map w' !! key_ o = None
         ∧ IsDestroyed this w' = Ok true w'
         ∧ ScopeURL this w' = Ok EmptyGURL w')
  ∧ (version_destroyed_ o = false →
     live_versions w !! (service_worker_context_ o, version_id_ o) = None →
     ∃ w', OnRunningStatusChanged this w = Ok tt w'
           ∧ version_id_map w' !! key_ o = None
           ∧ IsDestroyed this w' = Ok true w'
           ∧ ScopeURL this w' = Ok EmptyGURL w').
Proof.
  intros Ho. split.
  - exists (after_destroy this o w). unfold OnVersionRedundant.
    rewrite (Destroy_spec _ o) by done. split; [done|].
    split; [simpl; apply lookup_delete_eq|].
    split.
    + by rewrite (IsDestroyed_spec _ (destroyed o))
        by (simpl; apply lookup_insert_eq).
    + by apply (ScopeURL_destroyed _ (destroyed o));
        [simpl; apply lookup_insert_eq|].
  - intros Hd Hl. unfold OnRunningStatusChanged.
    unfold mbind, M_bind, bind.
    rewrite (InvalidateVersionInfo_spec _ o) by done. rewrite Hd, Hl.
    munfold. mstep.
    destruct (remote_ o) as [r|] eqn:Er; mstep.
    + eexists. split; [reflexivity|]. simpl.
      split; [apply lookup_delete_eq|].
      split.
      * by erewrite IsDestroyed_spec by (simpl; apply lookup_insert_eq).
      * by eapply ScopeURL_destroyed; [simpl; apply lookup_insert_eq|].
    + eexists. split; [reflexivity|]. simpl.
      split; [apply lookup_delete_eq|].
      split.
      * by erewrite IsDestroyed_spec by (simpl; apply lookup_insert_eq).
      * by eapply ScopeURL_destroyed; [simpl; apply lookup_insert_eq|].
Qed.

(** ** Starting the worker *)

(** C5: on a destroyed proxy [StartWorker] hands back a fresh promise that
    is already rejected with the destroyed error; the host is not called
    and no proxy changes. *)
Theorem StartWorker_destroyed_rejects this o w :
  heap w !! this = Some o → version_destroyed_ o = true →
  ∃ p w', StartWorker this w = Ok p w'
          ∧ promise_state w p = None
          ∧ promise_state w' p = Some (Rejected (Error destroyed_message))
          ∧ host_calls w' = host_calls w
          ∧ heap w' = heap w.
Proof.
  intros Ho Hd. unfold StartWorker. munfold. rewrite Ho, Hd. simpl.
  rewrite lookup_app_r, Nat.sub_diag by done. simpl.
  eexists _, _. split; [reflexivity|]. unfold promise_state. simpl.
  split; [by apply lookup_ge_None_2|].
  split; [|done].
  rewrite list_lookup_insert_eq; [done|]. rewrite length_app. simpl. lia.
Qed.

Lemma StartWorker_pending this o p w :
  heap w !! this = Some o → version_destroyed_ o = false →
  start_worker_promise_ o = Some p → StartWorker this w = Ok p w.
Proof. intros Ho Hd Hp. unfold StartWorker. munfold. by rewrite Ho, Hd, Hp. Qed.

Lemma start_calls_snoc w c :
  start_calls (with_host_calls (host_calls w ++ [c]) w)
  = start_calls w + (if is_start_call c then 1 else 0).
Proof.
  unfold start_calls. simpl. rewrite List.filter_app, length_app. simpl.
  by destruct (is_start_call c).
Qed.

(** C3: on a proxy that is not destroyed and has no start in flight, the
    first [StartWorker] creates one pending promise and asks the host once.
    As long as that start is unresolved every further [StartWorker] on the
    proxy returns the same promise and leaves the world, and so the host,
    untouched.  The completion callbacks settle that one promise, fulfilled
    on success and rejected on failure, and empty the slot. *)
Theorem StartWorker_coalesces this o w :
  reachable w → heap w !! this = Some o →
  version_destroyed_ o = false → start_worker_promise_ o = None →
  ∃ p w1 i,
    version_info_ o = Some i
    ∧ StartWorker this w = Ok p w1
    ∧ promise_state w p = None
    ∧ promise_state w1 p = Some Pending
    ∧ host_calls w1 =
        (host_calls w ++
           [StartWorkerForScope (service_worker_context_ o) (scope i)
              (CreateFirstParty (OriginCreate (scope i))) this])%list
    ∧ StartWorker this w1 = Ok p w1
    ∧ start_calls w1 = S (start_calls w)
    ∧ (∀ w' o', heap w' !! this = Some o' → version_destroyed_ o' = false →
         start_worker_promise_ o' = Some p → StartWorker this w' = Ok p w')
    ∧ (∀ version_id process_id thread_id, ∃ w2 o2,
         DidStartWorkerForScope this version_id process_id thread_id w1
           = Ok tt w2
         ∧ promise_state w2 p = Some Fulfilled
         ∧ heap w2 !! this = Some o2 ∧ start_worker_promise_ o2 = None)
    ∧ (∀ status_code, ∃ w2 o2,
         DidStartWorkerFail this status_code w1 = Ok tt w2
         ∧ promise_state w2 p = Some (Rejected (Error start_failed_message))
         ∧ heap w2 !! this = Some o2 ∧ start_worker_promise_ o2 = None).
Proof.
  intros Hr Ho Hd Hp.
  pose proof (reachable_invariant w Hr _ _ Ho) as Hc.
  unfold snapshot_consistent in Hc.
  destruct (version_info_ o) as [i|] eqn:Ei;
    [|destruct Hc as [Hc _]; rewrite Hd in Hc; by specialize (Hc eq_refl)].
  clear Hc.
  eexists (length (promises w)), _, i.
  split; [done|].
  split.
  { unfold StartWorker, ScopeURL, GetStorageKey. munfold.
    rewrite Ho, Hd, Hp. repeat progress (rewrite ?Hd, ?Ei; mstep).
    reflexivity. }
  unfold promise_state. simpl.
  split; [by apply lookup_ge_None_2|].
  split; [by rewrite lookup_app_r, Nat.sub_diag|].
  split; [done|].
  split.
  { apply (StartWorker_pending _ (set_start_worker_promise
                                     (Some (length (promises w))) o));
      [simpl; apply lookup_insert_eq|done|done]. }
  split.
  { unfold start_calls. simpl. rewrite List.filter_app, length_app. simpl. lia. }
  split; [intros w' o'; apply StartWorker_pending|].
  split.
  - intros ???. unfold DidStartWorkerForScope. munfold. mstep.
    rewrite lookup_app_r, Nat.sub_diag by done. mstep. eexists _, _. split; [reflexivity|]. simpl.
    split; [|by rewrite lookup_insert_eq].
    apply list_lookup_insert_eq. rewrite length_app. simpl. lia.
  - intros ?. unfold DidStartWorkerFail. munfold. mstep.
    rewrite lookup_app_r, Nat.sub_diag by done. mstep. eexists _, _. split; [reflexivity|]. simpl.
    split; [|by rewrite lookup_insert_eq].
    apply list_lookup_insert_eq. rewrite length_app. simpl. lia.
Qed.

(** ** Messaging *)

(** C10: the conversion of the arguments comes first in [Send]; a payload
    that cannot be serialised raises the serialisation error whatever the
    state of the proxy, destroyed or not, running or not, and nothing else
    happens. *)
Theorem Send_unserializable_throws this internal channel args w :
  ConvertFromV8 args = None →
  Send this internal channel args w = Thrown (Error serialize_message) w.
Proof. intros Hc. unfold Send. by rewrite Hc. Qed.

Lemma Send_unbound_running this o v internal channel args message w :
  heap w !! this = Some o → ConvertFromV8 args = Some message →
  remote_ o = None →
  live_versions w !! (service_worker_context_ o, version_id_ o) = Some v →
  running_status v = kRunning →
  let endpoint := (service_worker_context_ o, version_id_ o) in
  ∃ w', Send this internal channel args w = Ok tt w'
        ∧ host_calls w'
          = (host_calls w ++
               [GetRemoteAssociatedInterface (service_worker_context_ o)
                  (version_id_ o);
                Message endpoint internal channel message])%list
        ∧ heap w' !! this = Some (set_remote (Some endpoint) o).
Proof.
  intros Ho Hc Hr Hl Hs endpoint. unfold Send, GetRendererApi. rewrite Hc.
  munfold. rewrite Ho, Hr. simpl. rewrite Hl, Hs. mstep.
  eexists. split; [reflexivity|]. simpl.
  split; [by rewrite <- app_assoc|apply lookup_insert_eq].
Qed.

(** C4 (amended): with a serialisable payload, [Send] on a proxy that has
    no channel bound and whose version the host does not report as live
    and running returns normally and leaves the world as it was, whether
    the proxy is destroyed or not: no exception, no channel bound, no
    message forwarded.  On a proxy that is not destroyed and has a channel
    bound, [Send] forwards the message on that channel and changes nothing
    else, whatever the host reports about the worker. *)
Theorem Send_noop_unless_channel_bound this o internal channel args message w :
  heap w !! this = Some o →
  ConvertFromV8 args = Some message →
  (remote_ o = None →
   IsLiveRunningServiceWorker (service_worker_context_ o) (version_id_ o) w
     = Ok false w →
   Send this internal channel args w = Ok tt w)
  ∧ (∀ r, version_destroyed_ o = false → remote_ o = Some r →
       Send this internal channel args w
       = Ok tt (with_host_calls
                  (host_calls w ++ [Message r internal channel message]) w)).
Proof.
  intros Ho Hc. split.
  - intros Hr Hl. unfold Send, GetRendererApi. rewrite Hc.
    unfold mbind, M_bind, bind at 1 2. unfold load. rewrite Ho, Hr.
    unfold mbind, M_bind, bind at 1. by rewrite Hl.
  - intros r _ Hr. unfold Send, GetRendererApi. rewrite Hc. munfold.
    by rewrite Ho, Hr.
Qed.

(** ** External requests *)

(** C8: [FinishExternalRequest] raises the destroyed error on a destroyed
    proxy whatever the token, and the invalid-token error on a live proxy
    whose token does not parse; in both cases the world, and with it the
    log of host calls, is unchanged. *)
Theorem FinishExternalRequest_rejects this o uuid w :
  heap w !! this = Some o →
  (version_destroyed_ o = true →
   FinishExternalRequest this uuid w = Thrown (TypeError destroyed_message) w)
  ∧ (version_destroyed_ o = false →
     is_valid (ParseLowercase uuid) = false →
     FinishExternalRequest this uuid w
       = Thrown (TypeError invalid_uuid_message) w).
Proof.
  intros Ho. unfold FinishExternalRequest. munfold. rewrite Ho.
  split.
  - by intros ->.
  - by intros -> ->.
Qed.

(** ** Lookup or creation *)

Lemma From_registered c p v a w :
  version_id_map w !! {| key_version_id := v; key_storage_partition := p |}
    = Some a →
  From c p v w = Ok (Some a) w.
Proof. intros Hk. unfold From. munfold. by rewrite Hk. Qed.

Lemma From_creates c p v lv w :
  let key := {| key_version_id := v; key_storage_partition := p |} in
  version_id_map w !! key = None →
  live_versions w !! (c, v) = Some lv → is_redundant lv = false →
  From c p v w
  = Ok (Some (next_addr w)) (after_create (fresh_proxy c key v (GetInfo lv)) w).
Proof.
  intros key Ek El Er. unfold From, new_ServiceWorkerMain. munfold. fold key.
  rewrite Ek. simpl. rewrite El. simpl. rewrite Er. simpl. rewrite Ek. simpl.
  erewrite InvalidateVersionInfo_spec by (simpl; apply lookup_insert_eq).
  simpl. rewrite El. simpl. rewrite !lookup_insert_eq. simpl.
  rewrite !insert_insert_eq. by destruct w.
Qed.

(** C6: [From] returns the proxy the registry holds for the identity;
    with no entry and a live version that is not redundant it constructs a
    proxy at the next address, registers and pins it, and returns it; with
    no entry and no live version, or only a redundant one, it returns the
    empty handle and leaves the world, and with it the heap, untouched.
    A second [From] for the same identity, with no destruction in between,
    yields the result of the first and changes nothing, and a proxy that
    was returned stays the answer whatever the host reports meanwhile. *)
Theorem From_twice_same_proxy sw_context storage_partition version_id w :
  let key := {| key_version_id := version_id;
                key_storage_partition := storage_partition |} in
  ∃ r w1,
    From sw_context storage_partition version_id w = Ok r w1
    ∧ From sw_context storage_partition version_id w1 = Ok r w1
    ∧ (∀ a, r = Some a →
         version_id_map w1 !! key = Some a
         ∧ ∀ ctx versions,
             From ctx storage_partition version_id
               (with_live_versions versions w1)
             = Ok (Some a) (with_live_versions versions w1))
    ∧ (∀ a, version_id_map w !! key = Some a → r = Some a ∧ w1 = w)
    ∧ (version_id_map w !! key = None →
       ∀ lv, live_versions w !! (sw_context, version_id) = Some lv →
             is_redundant lv = false →
             r = Some (next_addr w)
             ∧ w1 = after_create
                      (fresh_proxy sw_context key version_id (GetInfo lv)) w)
    ∧ (version_id_map w !! key = None →
       (∀ lv, live_versions w !! (sw_context, version_id) = Some lv →
              is_redundant lv = true) →
       r = None ∧ w1 = w).
Proof.
  intros key.
  destruct (version_id_map w !! key) as [a|] eqn:Ek.
  { exists (Some a), w. rewrite (From_registered _ _ _ a) by done.
    split; [done|]. split; [done|].
    split.
    { intros ? [= <-]. split; [done|]. intros. by apply From_registered. }
    split; [by intros ? [= <-]|]. split; done. }
  destruct (live_versions w !! (sw_context, version_id)) as [lv|] eqn:El.
  2: { exists None, w.
       assert (From sw_context storage_partition version_id w = Ok None w)
         as Hf by (unfold From; munfold; fold key; rewrite Ek; simpl;
                   by rewrite El).
       rewrite Hf. split; [done|]. split; [done|]. split; [done|].
       split; [done|]. split; done. }
  destruct (is_redundant lv) eqn:Er.
  { exists None, w.
    assert (From sw_context storage_partition version_id w = Ok None w)
      as Hf by (unfold From; munfold; fold key; rewrite Ek; simpl;
                rewrite El; simpl; by rewrite Er).
    rewrite Hf. split; [done|]. split; [done|]. split; [done|].
    split; [done|].
    split; [intros _ lv' [= <-] Hn; congruence|done]. }
  set (o := fresh_proxy sw_context key version_id (GetInfo lv)).
  assert (version_id_map (after_create o w) !! key = Some (next_addr w))
    as Hk by (simpl; apply lookup_insert_eq).
  exists (Some (next_addr w)), (after_create o w).
  split; [by apply From_creates|].
  split; [by apply From_registered|].
  split.
  { intros ? [= <-]. split; [done|]. intros. by apply From_registered. }
  split; [done|].
  split; [by intros _ lv' [= <-] _|].
  intros _ Hall. rewrite (Hall lv eq_refl) in Er. discriminate.
Qed.

Lemma GetStorageKey_without_snapshot this o w :
  heap w !! this = Some o → version_info_ o = None →
  StopWorker this w = Crash NullDereference
  ∧ ∀ count, CountExternalRequests this count w = Crash NullDereference.
Proof.
  intros Ho Hi. unfold StopWorker, CountExternalRequests, GetStorageKey.
  munfold. rewrite Ho. simpl. rewrite Ho. simpl. by rewrite Hi.
Qed.

Lemma Send_bound this o internal channel args message r w :
  heap w !! this = Some o →
  ConvertFromV8 args = Some message →
  remote_ o = Some r →
  Send this internal channel args w
  = Ok tt (with_host_calls
             (host_calls w ++ [Message r internal channel message]) w).
Proof.
  intros Ho Hc Hr. unfold Send, GetRendererApi. rewrite Hc. munfold.
  by rewrite Ho, Hr.
Qed.

Lemma IsLiveRunningServiceWorker_gone ctx version_id w :
  live_versions w !! (ctx, version_id) = None →
  IsLiveRunningServiceWorker ctx version_id w = Ok false w.
Proof. intros Hl. munfold. by rewrite Hl. Qed.

Lemma IsLiveRunningServiceWorker_live ctx version_id v w :
  live_versions w !! (ctx, version_id) = Some v →
  IsLiveRunningServiceWorker ctx version_id w
  = Ok (is_running (running_status v)) w.
Proof. intros Hl. munfold. by rewrite Hl. Qed.

Lemma delete_ServiceWorkerMain_spec this o w :
  heap w !! this = Some o →
  delete_ServiceWorkerMain this w
  = Ok tt (with_heap (delete this (heap (after_destroy this o w)))
             (after_destroy this o w)).
Proof.
  intros Ho. unfold delete_ServiceWorkerMain, mbind, M_bind, bind.
  by rewrite (Destroy_spec _ o).
Qed.

Lemma with_host_calls_snoc_ne (w : World) c :
  with_host_calls (host_calls w ++ [c]) w ≠ w.
Proof.
  intros Heq. apply (f_equal (λ x, length (host_calls x))) in Heq.
  simpl in Heq. rewrite length_app in Heq. simpl in Heq. lia.
Qed.

Lemma survives_run ops w :
  survives ops w = true →
  run ops w = Some (default initial_world (run ops w)).
Proof. unfold survives. by destruct (run ops w). Qed.

End Properties.


(** * The properties at concrete worlds *)

(** Closes a goal between closed terms by evaluation. *)
Ltac by_evaluation := vm_compute; reflexivity.

Ltac conjuncts :=
  repeat lazymatch goal with |- _ ∧ _ => split end.

Section Concrete.
Local Existing Instance sample_collaborators.

Lemma after_ops_run ops :
  survives ops initial_world = true →
  run ops initial_world = Some (after_ops ops).
Proof. apply survives_run. Qed.

Lemma after_ops_reachable ops :
  survives ops initial_world = true → reachable (after_ops ops).
Proof.
  intros Hs. eapply run_reachable; [apply reachable_initial|].
  by apply after_ops_run.
Qed.

(** C1: version 7 is live, a proxy is created for it, the host reports the
    version redundant.  The proxy is destroyed and its snapshot cleared;
    [StopWorker] and [CountExternalRequests] then follow the absent
    snapshot in [GetStorageKey] and fault instead of returning or raising
    an error. *)
Theorem StopWorker_on_destroyed_proxy_faults :
  let w := after_ops redundant_ops in
  run redundant_ops initial_world = Some w
  ∧ heap w !! 0 = Some (destroyed proxy7)
  ∧ IsDestroyed 0 w = Ok true w
  ∧ StopWorker 0 w = Crash NullDereference
  ∧ CountExternalRequests 0 0 w = Crash NullDereference.
Proof.
  intros w.
  assert (heap w !! 0 = Some (destroyed proxy7)) as Ho by by_evaluation.
  destruct (GetStorageKey_without_snapshot 0 _ w Ho eq_refl) as [Hs Hc].
  conjuncts;
    [apply after_ops_run; by_evaluation | exact Ho
    | exact (IsDestroyed_spec 0 _ w Ho) | exact Hs | exact (Hc 0) ].
Qed.

(** C2: the proxy at address 0 destroyed itself when its live version
    vanished; the version was loaded again and [From] registered a second
    proxy, at address 1, under the same key.  A second [Destroy] on the
    first proxy, as its destructor performs, erases the registration of
    the second proxy, which is alive and not destroyed. *)
Theorem second_Destroy_erases_successor :
  let w := after_ops successor_ops in
  let w' := after_destroy 0 (destroyed proxy7) w in
  run successor_ops initial_world = Some w
  ∧ heap w !! 0 = Some (destroyed proxy7)
  ∧ heap w !! 1 = Some proxy7
  ∧ version_id_map w !! key7 = Some 1
  ∧ Destroy 0 w = Ok tt w'
  ∧ delete_ServiceWorkerMain 0 w = Ok tt (with_heap (delete 0 (heap w')) w')
  ∧ version_id_map w' !! key7 = None
  ∧ heap w' !! 1 = Some proxy7
  ∧ w' ≠ w.
Proof.
  intros w w'.
  assert (heap w !! 0 = Some (destroyed proxy7)) as H0 by by_evaluation.
  assert (heap w !! 1 = Some proxy7) as H1 by by_evaluation.
  assert (version_id_map w !! key7 = Some 1) as Hsome by by_evaluation.
  assert (version_id_map w' !! key7 = None) as Hnone
    by (subst w'; simpl; apply lookup_delete_eq).
  conjuncts;
    [ apply after_ops_run; by_evaluation | exact H0 | exact H1 | exact Hsome
    | exact (Destroy_spec 0 _ w H0)
    | exact (delete_ServiceWorkerMain_spec 0 _ w H0)
    | exact Hnone
    | subst w'; simpl; by rewrite lookup_insert_ne
    | ].
  intros Heq.
  pose proof (f_equal (λ x, version_id_map x !! key7) Heq) as Hx.
  cbv beta in Hx. rewrite Hnone in Hx.
  discriminate (eq_trans Hx Hsome).
Qed.

(** C4, counterexample: three worlds in which [Send] with a serialisable
    payload forwards the message although the proxy is destroyed or no
    worker is running.  In the first a message was sent while the worker
    ran, which bound the channel, and the live version then vanished from
    the host before the proxy, not destroyed, was notified.  In the second
    the channel was bound, the version became redundant, so the proxy is
    destroyed, and then vanished.  In the third the version became
    redundant while its worker kept running and no channel was ever bound:
    [Send] on the destroyed proxy binds the channel and forwards. *)
Lemma Send_forwards_though_destroyed_or_stopped :
  (let w := after_ops sent_vanished_ops in
   run sent_vanished_ops initial_world = Some w
   ∧ heap w !! 0 = Some proxy7_bound
   ∧ IsDestroyed 0 w = Ok false w
   ∧ IsLiveRunningServiceWorker 0 7 w = Ok false w
   ∧ ConvertFromV8 (SampleString "again") = Some "again"
   ∧ Send 0 false "ping" (SampleString "again") w
     = Ok tt (with_host_calls
                (host_calls w ++ [Message (0, 7%Z) false "ping" "again"]) w)
   ∧ Send 0 false "ping" (SampleString "again") w ≠ Ok tt w)
  ∧ (let w := after_ops sent_redundant_gone_ops in
     run sent_redundant_gone_ops initial_world = Some w
     ∧ heap w !! 0 = Some (destroyed proxy7_bound)
     ∧ IsDestroyed 0 w = Ok true w
     ∧ IsLiveRunningServiceWorker 0 7 w = Ok false w
     ∧ Send 0 false "ping" (SampleString "again") w
       = Ok tt (with_host_calls
                  (host_calls w ++ [Message (0, 7%Z) false "ping" "again"]) w)
     ∧ Send 0 false "ping" (SampleString "again") w ≠ Ok tt w)
  ∧ (let w := after_ops redundant_ops in
     run redundant_ops initial_world = Some w
     ∧ heap w !! 0 = Some (destroyed proxy7)
     ∧ remote_ (destroyed proxy7) = None
     ∧ IsDestroyed 0 w = Ok true w
     ∧ IsLiveRunningServiceWorker 0 7 w = Ok true w
     ∧ (∃ w', Send 0 false "ping" (SampleString "again") w = Ok tt w'
              ∧ host_calls w'
                = (host_calls w ++
                     [GetRemoteAssociatedInterface 0 7;
                      Message (0, 7%Z) false "ping" "again"])%list
              ∧ heap w' !! 0
                = Some (set_remote (Some (0, 7%Z)) (destroyed proxy7)))
     ∧ Send 0 false "ping" (SampleString "again") w ≠ Ok tt w).
Proof.
  split; [|split]; intros w.
  - assert (heap w !! 0 = Some proxy7_bound) as Ho by by_evaluation.
    assert (live_versions w !! (0, 7%Z) = None) as Hl by by_evaluation.
    pose proof (Send_bound 0 _ false "ping" (SampleString "again") "again"
                  (0, 7%Z) w Ho eq_refl eq_refl) as Hsend.
    conjuncts;
      [ apply after_ops_run; by_evaluation | exact Ho
      | exact (IsDestroyed_spec 0 _ w Ho)
      | exact (IsLiveRunningServiceWorker_gone 0 7 w Hl)
      | reflexivity | exact Hsend | ].
    rewrite Hsend. intros Heq.
    pose proof (f_equal world_of Heq) as Hw.
    exact (with_host_calls_snoc_ne _ _ (inj Some _ _ Hw)).
  - assert (heap w !! 0 = Some (destroyed proxy7_bound)) as Ho
      by by_evaluation.
    assert (live_versions w !! (0, 7%Z) = None) as Hl by by_evaluation.
    pose proof (Send_bound 0 _ false "ping" (SampleString "again") "again"
                  (0, 7%Z) w Ho eq_refl eq_refl) as Hsend.
    conjuncts;
      [ apply after_ops_run; by_evaluation | exact Ho
      | exact (IsDestroyed_spec 0 _ w Ho)
      | exact (IsLiveRunningServiceWorker_gone 0 7 w Hl)
      | exact Hsend | ].
    rewrite Hsend. intros Heq.
    pose proof (f_equal world_of Heq) as Hw.
    exact (with_host_calls_snoc_ne _ _ (inj Some _ _ Hw)).
  - assert (heap w !! 0 = Some (destroyed proxy7)) as Ho by by_evaluation.
    assert (live_versions w !! (0, 7%Z) = Some worker7) as Hl
      by by_evaluation.
    destruct (Send_unbound_running (H := sample_collaborators)
                0 (destroyed proxy7) worker7 false "ping"
                (SampleString "again") "again" w Ho eq_refl eq_refl Hl
                eq_refl) as (w' & Hsend & Hlog & Hheap).
    conjuncts;
      [ apply after_ops_run; by_evaluation | exact Ho | reflexivity
      | exact (IsDestroyed_spec 0 _ w Ho)
      | exact (IsLiveRunningServiceWorker_live 0 7 worker7 w Hl)
      | by exists w' | ].
    rewrite Hsend. intros Heq.
    pose proof (f_equal world_of Heq) as Hw. apply (inj Some) in Hw.
    rewrite Hw in Hlog.
    apply (f_equal length) in Hlog. rewrite length_app in Hlog.
    simpl in Hlog. lia.
Qed.

(** ** Instances of the general theorems *)

Lemma StartWorker_coalesces_witness :
  let w := after_ops live_ops in
  reachable w ∧ heap w !! 0 = Some proxy7
  ∧ version_destroyed_ proxy7 = false ∧ start_worker_promise_ proxy7 = None
  ∧ ∃ p w1, StartWorker 0 w = Ok p w1
            ∧ StartWorker 0 w1 = Ok p w1
            ∧ start_calls w1 = S (start_calls w).
Proof.
  intros w.
  assert (reachable w) as Hr by (apply after_ops_reachable; by_evaluation).
  assert (heap w !! 0 = Some proxy7) as Ho by by_evaluation.
  split; [exact Hr|]. split; [exact Ho|].
  split; [reflexivity|]. split; [reflexivity|].
  destruct (StartWorker_coalesces (H := sample_collaborators)
              0 proxy7 w Hr Ho eq_refl eq_refl)
    as (p & w1 & i & _ & H1 & _ & _ & _ & H2 & H3 & _).
  by exists p, w1.
Defined.

Lemma Send_noop_unless_channel_bound_witness :
  (let w := after_ops redundant_gone_ops in
   heap w !! 0 = Some (destroyed proxy7)
   ∧ ConvertFromV8 (SampleString "hello") = Some "hello"
   ∧ remote_ (destroyed proxy7) = None
   ∧ IsLiveRunningServiceWorker 0 7 w = Ok false w
   ∧ Send 0 false "ping" (SampleString "hello") w = Ok tt w)
  ∧ (let w := after_ops vanished_ops in
     heap w !! 0 = Some proxy7
     ∧ remote_ proxy7 = None
     ∧ IsLiveRunningServiceWorker 0 7 w = Ok false w
     ∧ Send 0 false "ping" (SampleString "hello") w = Ok tt w)
  ∧ (let w := after_ops sent_vanished_ops in
     heap w !! 0 = Some proxy7_bound
     ∧ version_destroyed_ proxy7_bound = false
     ∧ remote_ proxy7_bound = Some (0, 7%Z)
     ∧ Send 0 false "ping" (SampleString "hello") w
       = Ok tt (with_host_calls
                  (host_calls w ++ [Message (0, 7%Z) false "ping" "hello"])
                  w)).
Proof.
  split; [|split]; intros w.
  - assert (heap w !! 0 = Some (destroyed proxy7)) as Ho by by_evaluation.
    assert (live_versions w !! (0, 7%Z) = None) as Hg by by_evaluation.
    pose proof (IsLiveRunningServiceWorker_gone 0 7 w Hg) as Hl.
    split; [exact Ho|]. split; [reflexivity|]. split; [reflexivity|].
    split; [exact Hl|].
    exact (proj1 (Send_noop_unless_channel_bound (H := sample_collaborators)
                    0 (destroyed proxy7) false "ping"
                    (SampleString "hello") "hello" w Ho eq_refl)
             eq_refl Hl).
  - assert (heap w !! 0 = Some proxy7) as Ho by by_evaluation.
    assert (live_versions w !! (0, 7%Z) = None) as Hg by by_evaluation.
    pose proof (IsLiveRunningServiceWorker_gone 0 7 w Hg) as Hl.
    split; [exact Ho|]. split; [reflexivity|]. split; [exact Hl|].
    exact (proj1 (Send_noop_unless_channel_bound (H := sample_collaborators)
                    0 proxy7 false "ping"
                    (SampleString "hello") "hello" w Ho eq_refl)
             eq_refl Hl).
  - assert (heap w !! 0 = Some proxy7_bound) as Ho by by_evaluation.
    split; [exact Ho|]. split; [reflexivity|]. split; [reflexivity|].
    exact (proj2 (Send_noop_unless_channel_bound (H := sample_collaborators)
                    0 proxy7_bound false "ping"
                    (SampleString "hello") "hello" w Ho eq_refl)
             (0, 7%Z) eq_refl eq_refl).
Defined.

Lemma StartWorker_destroyed_rejects_witness :
  let w := after_ops redundant_ops in
  heap w !! 0 = Some (destroyed proxy7)
  ∧ version_destroyed_ (destroyed proxy7) = true
  ∧ ∃ p w', StartWorker 0 w = Ok p w'
            ∧ promise_state w' p = Some (Rejected (Error destroyed_message))
            ∧ host_calls w' = host_calls w.
Proof.
  intros w.
  assert (heap w !! 0 = Some (destroyed proxy7)) as Ho by by_evaluation.
  split; [exact Ho|]. split; [reflexivity|].
  destruct (StartWorker_destroyed_rejects (H := sample_collaborators)
              0 (destroyed proxy7) w Ho eq_refl)
    as (p & w' & H1 & _ & H2 & H3 & _).
  by exists p, w'.
Defined.

Lemma From_twice_same_proxy_witness :
  (let w := after_ops [OpHost host_with_worker7] in
   version_id_map w !! key7 = None
   ∧ live_versions w !! (0, 7%Z) = Some worker7
   ∧ is_redundant worker7 = false
   ∧ ∃ w1, From 0 0 7 w = Ok (Some (next_addr w)) w1
           ∧ From 0 0 7 w1 = Ok (Some (next_addr w)) w1
           ∧ w1 = after_create proxy7 w
           ∧ version_id_map w1 !! key7 = Some (next_addr w))
  ∧ (let w := after_ops live_ops in
     version_id_map w !! key7 = Some 0
     ∧ From 0 0 7 w = Ok (Some 0) w)
  ∧ (version_id_map initial_world !! key7 = None
     ∧ (∀ v, live_versions initial_world !! (0, 7%Z) = Some v →
             is_redundant v = true)
     ∧ From 0 0 7 initial_world = Ok None initial_world).
Proof.
  split; [|split].
  - intros w.
    assert (version_id_map w !! key7 = None) as Hk by by_evaluation.
    assert (live_versions w !! (0, 7%Z) = Some worker7) as Hl
      by by_evaluation.
    split; [exact Hk|]. split; [exact Hl|]. split; [reflexivity|].
    destruct (From_twice_same_proxy (H := sample_collaborators) 0 0 7 w)
      as (r & w1 & H1 & H2 & H3 & _ & H5 & _).
    destruct (H5 Hk worker7 Hl eq_refl) as [Hr Hw].
    exists w1. rewrite Hr in H1, H2, H3.
    split; [exact H1|]. split; [exact H2|]. split; [exact Hw|].
    exact (proj1 (H3 _ eq_refl)).
  - intros w.
    assert (version_id_map w !! key7 = Some 0) as Hk by by_evaluation.
    split; [exact Hk|].
    destruct (From_twice_same_proxy (H := sample_collaborators) 0 0 7 w)
      as (r & w1 & H1 & _ & _ & H4 & _).
    destruct (H4 0 Hk) as [Hr Hw]. by rewrite Hr, Hw in H1.
  - assert (∀ v, live_versions initial_world !! (0, 7%Z) = Some v →
                 is_redundant v = true) as Hv
      by (intros v Hl; simpl in Hl; by rewrite lookup_empty in Hl).
    split; [reflexivity|]. split; [exact Hv|].
    destruct (From_twice_same_proxy (H := sample_collaborators)
                0 0 7 initial_world)
      as (r & w1 & H1 & _ & _ & _ & _ & H6).
    destruct (H6 eq_refl Hv) as [Hr Hw]. by rewrite Hr, Hw in H1.
Defined.

Lemma destroy_clears_registry_and_scope_witness :
  let w := after_ops vanished_ops in
  heap w !! 0 = Some proxy7
  ∧ version_destroyed_ proxy7 = false
  ∧ live_versions w !! (0, 7%Z) = None
  ∧ (∃ w', OnVersionRedundant 0 w = Ok tt w'
           ∧ version_id_map w' !! key7 = None
           ∧ IsDestroyed 0 w' = Ok true w'
           ∧ ScopeURL 0 w' = Ok EmptyGURL w')
  ∧ (∃ w', OnRunningStatusChanged 0 w = Ok tt w'
           ∧ version_id_map w' !! key7 = None
           ∧ IsDestroyed 0 w' = Ok true w'
           ∧ ScopeURL 0 w' = Ok EmptyGURL w').
Proof.
  intros w.
  assert (heap w !! 0 = Some proxy7) as Ho by by_evaluation.
  assert (live_versions w !! (0, 7%Z) = None) as Hl by by_evaluation.
  split; [exact Ho|]. split; [reflexivity|]. split; [exact Hl|].
  destruct (destroy_clears_registry_and_scope (H := sample_collaborators)
              0 proxy7 w Ho) as [H1 H2].
  split; [exact H1|]. exact (H2 eq_refl Hl).
Defined.

Lemma FinishExternalRequest_rejects_witness :
  (let w := after_ops redundant_ops in
   heap w !! 0 = Some (destroyed proxy7)
   ∧ version_destroyed_ (destroyed proxy7) = true
   ∧ is_valid (ParseLowercase sample_token) = true
   ∧ FinishExternalRequest 0 sample_token w
     = Thrown (TypeError destroyed_message) w)
  ∧ (let w := after_ops live_ops in
     heap w !! 0 = Some proxy7
     ∧ version_destroyed_ proxy7 = false
     ∧ is_valid (ParseLowercase "not-a-uuid") = false
     ∧ FinishExternalRequest 0 "not-a-uuid" w
       = Thrown (TypeError invalid_uuid_message) w).
Proof.
  split; intros w.
  - assert (heap w !! 0 = Some (destroyed proxy7)) as Ho by by_evaluation.
    split; [exact Ho|]. split; [reflexivity|]. split; [by_evaluation|].
    exact (proj1 (FinishExternalRequest_rejects (H := sample_collaborators)
                    0 (destroyed proxy7) sample_token w Ho) eq_refl).
  - assert (heap w !! 0 = Some proxy7) as Ho by by_evaluation.
    assert (is_valid (ParseLowercase "not-a-uuid") = false) as Hp
      by by_evaluation.
    split; [exact Ho|]. split; [reflexivity|]. split; [exact Hp|].
    exact (proj2 (FinishExternalRequest_rejects (H := sample_collaborators)
                    0 proxy7 "not-a-uuid" w Ho) eq_refl Hp).
Defined.

Lemma snapshot_iff_not_destroyed_witness :
  let w := after_ops successor_ops in
  reachable w
  ∧ heap w !! 0 = Some (destroyed proxy7)
  ∧ (is_Some (version_info_ (destroyed proxy7))
     ↔ version_destroyed_ (destroyed proxy7) = false)
  ∧ heap w !! 1 = Some proxy7
  ∧ (is_Some (version_info_ proxy7) ↔ version_destroyed_ proxy7 = false).
Proof.
  intros w.
  assert (reachable w) as Hr by (apply after_ops_reachable; by_evaluation).
  assert (heap w !! 0 = Some (destroyed proxy7)) as H0 by by_evaluation.
  assert (heap w !! 1 = Some proxy7) as H1 by by_evaluation.
  split; [exact Hr|]. split; [exact H0|].
  split; [exact (snapshot_iff_not_destroyed (H := sample_collaborators)
                   w 0 _ Hr H0)|].
  split; [exact H1|].
  exact (snapshot_iff_not_destroyed (H := sample_collaborators) w 1 _ Hr H1).
Defined.

Lemma Send_unserializable_throws_witness :
  let w := after_ops redundant_gone_ops in
  ConvertFromV8 SampleFunction = None
  ∧ heap w !! 0 = Some (destroyed proxy7)
  ∧ live_versions w !! (0, 7%Z) = None
  ∧ Send 0 false "ping" SampleFunction w = Thrown (Error serialize_message) w.
Proof.
  intros w. split; [reflexivity|]. split; [by_evaluation|].
  split; [by_evaluation|].
  exact (Send_unserializable_throws (H := sample_collaborators)
           0 false "ping" SampleFunction w eq_refl).
Defined.

End Concrete.


(** * Further properties of the proxy *)

Ltac effect_found :=
  first
    [ apply effect_quiet; reflexivity
    | eapply effect_touched;
      [ eassumption | simpl; reflexivity | reflexivity | reflexivity
      | reflexivity | reflexivity | reflexivity | reflexivity | reflexivity ]
    | eapply effect_destroyed;
      [ eassumption | simpl; reflexivity | reflexivity | reflexivity
      | reflexivity | reflexivity | reflexivity | reflexivity | reflexivity ] ].

Section Further.
Context `{Collaborators}.

(** ** What one operation does to the heap and the registry *)

Lemma From_effect c p v w w' :
  world_of (From c p v w) = Some w' → effect w w'.
Proof.
  intros Hr.
  set (key := {| key_version_id := v; key_storage_partition := p |}).
  destruct (version_id_map w !! key) as [a|] eqn:Ek.
  { rewrite (From_registered _ _ _ a) in Hr by done. simplify_eq/=.
    effect_found. }
  destruct (live_versions w !! (c, v)) as [lv|] eqn:El.
  2: { unfold From in Hr. munfold. fold key in Hr. rewrite Ek in Hr.
       simpl in Hr. rewrite El in Hr. simplify_eq/=. effect_found. }
  destruct (is_redundant lv) eqn:Er.
  { unfold From in Hr. munfold. fold key in Hr. rewrite Ek in Hr.
    simpl in Hr. rewrite El in Hr. simpl in Hr. rewrite Er in Hr.
    simplify_eq/=. effect_found. }
  rewrite (From_creates c p v lv) in Hr by done. simplify_eq/=.
  by eapply (effect_created _ _ (fresh_proxy c key v (GetInfo lv))).
Qed.

Lemma Destroy_effect this w w' :
  world_of (Destroy this w) = Some w' → effect w w'.
Proof.
  intros Hr. destruct (heap w !! this) as [o|] eqn:Ho.
  - rewrite (Destroy_spec _ o) in Hr by done. simplify_eq/=.
    by eapply (effect_destroyed _ _ this o (destroyed o)).
  - unfold Destroy in Hr. simpl in Hr. munfold. by rewrite Ho in Hr.
Qed.

Lemma OnRunningStatusChanged_effect this w w' :
  world_of (OnRunningStatusChanged this w) = Some w' → effect w w'.
Proof.
  intros Hr. unfold OnRunningStatusChanged in Hr.
  unfold mbind, M_bind, bind in Hr.
  destruct (heap w !! this) as [o|] eqn:Ho.
  2: { unfold InvalidateVersionInfo, InvalidateVersionInfo_body in Hr.
       munfold. by rewrite Ho in Hr. }
  rewrite (InvalidateVersionInfo_spec _ o) in Hr by done.
  destruct (version_destroyed_ o) eqn:Ed.
  - munfold. crunch; effect_found.
  - destruct (live_versions w !! (service_worker_context_ o, version_id_ o))
      as [lv|] eqn:El.
    + munfold. crunch; effect_found.
    + munfold. crunch; effect_found.
Qed.

Lemma exec_effect op w w' : world_of (exec op w) = Some w' → effect w w'.
Proof.
  intros Hr. destruct op; simpl in Hr.
  - unfold discard, mbind, M_bind, bind in Hr.
    destruct (From _ _ _ w) as [a w1|e w1|f] eqn:Ef; simpl in Hr;
      simplify_eq; apply (From_effect sw_context storage_partition version_id);
      by rewrite Ef.
  - unfold Send, GetRendererApi in Hr. munfold. crunch; effect_found.
  - by eapply OnRunningStatusChanged_effect.
  - by eapply Destroy_effect.
  - unfold IsDestroyed in Hr. munfold. crunch; effect_found.
  - unfold StartWorker, ScopeURL, GetStorageKey in Hr. munfold.
    crunch; effect_found.
  - unfold DidStartWorkerForScope in Hr. munfold. crunch; effect_found.
  - unfold DidStartWorkerFail in Hr. munfold. crunch; effect_found.
  - unfold StopWorker, GetStorageKey in Hr. munfold. crunch; effect_found.
  - unfold StartExternalRequest in Hr. munfold. crunch; effect_found.
  - unfold FinishExternalRequest in Hr. munfold. crunch; effect_found.
  - unfold CountExternalRequests, GetStorageKey in Hr. munfold.
    crunch; effect_found.
  - unfold VersionID in Hr. munfold. crunch; effect_found.
  - unfold ScopeURL in Hr. munfold. crunch; effect_found.
  - destruct (heap w !! this) as [o|] eqn:Ho.
    + rewrite (delete_ServiceWorkerMain_spec _ o) in Hr by done.
      simplify_eq/=. eapply (effect_released _ _ this o); try done.
      simpl. by rewrite delete_insert_eq.
    + unfold delete_ServiceWorkerMain, Destroy in Hr. simpl in Hr. munfold.
      by rewrite Ho in Hr.
  - unfold host_step in Hr. simplify_eq/=. effect_found.
Qed.

(** ** Well-formed worlds *)

Lemma well_formed_initial : well_formed initial_world.
Proof.
  split; [|split]; intros ? ? Hl; simpl in Hl; by rewrite lookup_empty in Hl.
Qed.

Lemma effect_well_formed w w' : effect w w' → well_formed w → well_formed w'.
Proof.
  intros He (Hb & Hr & Hc).
  destruct He as [Hh Hm Hn|this o o' Ho Hh Hm Hn Hv Hk Hx Hd Hp
                 |this o o' Ho Hh Hm Hn Hv Hk Hx Hd Hp
                 |this o Ho Hh Hm Hn|o' Hfree Hh Hm Hn Hd Hp Hv].
  - unfold well_formed, heap_bounded, registry_sound.
    rewrite Hh, Hm, Hn. done.
  - split; [|split].
    + intros a x Hl. rewrite Hn. rewrite Hh in Hl.
      apply lookup_insert_Some in Hl as [[<- _]|[_ Hl]]; eauto.
    + intros k a Hl. rewrite Hm in Hl. rewrite Hh.
      destruct (Hr k a Hl) as (x & Hx1 & Hx2 & Hx3).
      destruct (decide (a = this)) as [->|Hne].
      * exists o'. rewrite lookup_insert_eq. simplify_eq.
        by rewrite Hk, Hd.
      * exists x. by rewrite lookup_insert_ne.
    + intros a x Hl. rewrite Hh in Hl.
      apply lookup_insert_Some in Hl as [[<- <-]|[_ Hl]]; [|eauto].
      destruct (Hc _ _ Ho) as [Hc1 Hc2]. split; congruence.
  - split; [|split].
    + intros a x Hl. rewrite Hn. rewrite Hh in Hl.
      apply lookup_insert_Some in Hl as [[<- _]|[_ Hl]]; eauto.
    + intros k a Hl. rewrite Hm in Hl. rewrite Hh.
      apply lookup_delete_Some in Hl as [Hne Hl].
      destruct (Hr k a Hl) as (x & Hx1 & Hx2 & Hx3).
      exists x. rewrite lookup_insert_ne; [done|]. intros <-. congruence.
    + intros a x Hl. rewrite Hh in Hl.
      apply lookup_insert_Some in Hl as [[<- <-]|[_ Hl]]; [|eauto].
      destruct (Hc _ _ Ho) as [Hc1 Hc2]. split; [by rewrite Hp, Hd|congruence].
  - split; [|split].
    + intros a x Hl. rewrite Hn. rewrite Hh in Hl.
      apply lookup_delete_Some in Hl as [_ Hl]. eauto.
    + intros k a Hl. rewrite Hm in Hl. rewrite Hh.
      apply lookup_delete_Some in Hl as [Hne Hl].
      destruct (Hr k a Hl) as (x & Hx1 & Hx2 & Hx3).
      exists x. rewrite lookup_delete_ne; [done|]. intros <-. congruence.
    + intros a x Hl. rewrite Hh in Hl.
      apply lookup_delete_Some in Hl as [_ Hl]. eauto.
  - assert (heap w !! next_addr w = None) as Hnone.
    { destruct (heap w !! next_addr w) as [x|] eqn:Hx; [|done].
      apply Hb in Hx. lia. }
    split; [|split].
    + intros a x Hl. rewrite Hn. rewrite Hh in Hl.
      apply lookup_insert_Some in Hl as [[<- _]|[_ Hl]]; [lia|].
      apply Hb in Hl. lia.
    + intros k a Hl. rewrite Hm in Hl. rewrite Hh.
      apply lookup_insert_Some in Hl as [[<- <-]|[Hne Hl]].
      * exists o'. by rewrite lookup_insert_eq.
      * destruct (Hr k a Hl) as (x & Hx1 & Hx2 & Hx3).
        exists x. rewrite lookup_insert_ne; [done|]. intros <-. congruence.
    + intros a x Hl. rewrite Hh in Hl.
      apply lookup_insert_Some in Hl as [[<- <-]|[_ Hl]]; [|eauto].
      split; [by rewrite Hp, Hd|done].
Qed.

Lemma reachable_well_formed w : reachable w → well_formed w.
Proof.
  induction 1 as [|op w w' _ IH Hstep].
  - apply well_formed_initial.
  - eapply effect_well_formed; [|exact IH]. by eapply exec_effect.
Qed.

(** X1: in a reachable world every registry entry leads to a proxy that
    exists, carries the key of the entry and is not destroyed; so
    [FromVersionID] never hands out a released or destroyed proxy. *)
Theorem registry_entries_alive w version_id storage_partition a :
  reachable w →
  FromVersionID version_id storage_partition w = Ok (Some a) w →
  ∃ o, heap w !! a = Some o
       ∧ version_id_ o = version_id
       ∧ key_ o = {| key_version_id := version_id;
                     key_storage_partition := storage_partition |}
       ∧ version_destroyed_ o = false
       ∧ is_Some (version_info_ o).
Proof.
  intros Hr Hf. destruct (reachable_well_formed w Hr) as (_ & Hs & Hc).
  unfold FromVersionID, FromServiceWorkerKey in Hf.
  assert (version_id_map w
            !! {| key_version_id := version_id;
                  key_storage_partition := storage_partition |} = Some a)
    as Hl by congruence.
  destruct (Hs _ _ Hl) as (o & Ho & Hk & Hd). exists o.
  destruct (Hc _ _ Ho) as [_ Hv]. rewrite Hk in Hv. simpl in Hv.
  split; [done|]. split; [done|]. split; [done|]. split; [done|].
  pose proof (reachable_invariant w Hr _ _ Ho) as Hi.
  unfold snapshot_consistent in Hi.
  destruct (version_info_ o) as [i|]; [by eexists|].
  destruct Hi as [Hi _]. specialize (Hi eq_refl). congruence.
Qed.

(** X2: in a reachable world a proxy holds its pin exactly while it is not
    destroyed: a live proxy is kept from collection, a destroyed one is
    free to be collected. *)
Theorem pinned_iff_not_destroyed w this o :
  reachable w → heap w !! this = Some o →
  (pinned_ o = true ↔ version_destroyed_ o = false).
Proof.
  intros Hr Ho. destruct (reachable_well_formed w Hr) as (_ & _ & Hc).
  destruct (Hc _ _ Ho) as [Hp _]. rewrite Hp.
  by destruct (version_destroyed_ o).
Qed.

(** ** How a proxy changes over time *)

Lemma same_proxy_refl o : same_proxy o o.
Proof. by repeat split. Qed.

Lemma effect_evolves w w' : effect w w' → heap_bounded w → evolves w w'.
Proof.
  intros He Hb.
  destruct He as [Hh Hm Hn|this o o' Ho Hh Hm Hn Hv Hk Hx Hd Hp
                 |this o o' Ho Hh Hm Hn Hv Hk Hx Hd Hp
                 |this o Ho Hh Hm Hn|o' Hfree Hh Hm Hn Hd Hp Hv];
    (split; [lia|split]); rewrite Hh.
  - done.
  - intros a x x' Hl Hl'. simplify_eq. apply same_proxy_refl.
  - intros a Ha Hl. rewrite lookup_insert_ne; [done|].
    intros Heq. subst. discriminate (eq_trans (eq_sym Ho) Hl).
  - intros a x x' Hl Hl'.
    apply lookup_insert_Some in Hl' as [[<- <-]|[_ Hl']].
    + simplify_eq. repeat split; congruence.
    + simplify_eq. apply same_proxy_refl.
  - intros a Ha Hl. rewrite lookup_insert_ne; [done|].
    intros Heq. subst. discriminate (eq_trans (eq_sym Ho) Hl).
  - intros a x x' Hl Hl'.
    apply lookup_insert_Some in Hl' as [[<- <-]|[_ Hl']].
    + simplify_eq. repeat split; congruence.
    + simplify_eq. apply same_proxy_refl.
  - intros a Ha Hl. destruct (decide (a = this)) as [->|Hne].
    + apply lookup_delete_eq.
    + by rewrite lookup_delete_ne.
  - intros a x x' Hl Hl'. apply lookup_delete_Some in Hl' as [_ Hl'].
    simplify_eq. apply same_proxy_refl.
  - intros a Ha Hl. rewrite lookup_insert_ne; [done|]. lia.
  - intros a x x' Hl Hl'.
    apply lookup_insert_Some in Hl' as [[<- <-]|[_ Hl']].
    + apply Hb in Hl. lia.
    + simplify_eq. apply same_proxy_refl.
Qed.

Lemma evolves_trans w1 w2 w3 :
  heap_bounded w1 → evolves w1 w2 → evolves w2 w3 → evolves w1 w3.
Proof.
  intros Hb (Hn1 & He1 & Hp1) (Hn2 & He2 & Hp2). split; [lia|split].
  - intros a Ha Hl. apply He2; [lia|]. by apply He1.
  - intros a o o3 Hl Hl3.
    destruct (heap w2 !! a) as [o2|] eqn:Hl2.
    + destruct (Hp1 _ _ _ Hl Hl2) as (A1 & A2 & A3 & A4).
      destruct (Hp2 _ _ _ Hl2 Hl3) as (B1 & B2 & B3 & B4).
      repeat split; try congruence. intros Hd. by apply B4, A4.
    + apply Hb in Hl. rewrite He2 in Hl3; [done|lia|done].
Qed.

Lemma run_evolves ops w w' :
  reachable w → run ops w = Some w' → evolves w w'.
Proof.
  revert w. induction ops as [|op ops IH]; simpl; intros w Hr Hrun.
  - simplify_eq. split; [lia|split]; [done|].
    intros a o o' Hl Hl'. simplify_eq. apply same_proxy_refl.
  - destruct (world_of (exec op w)) as [w1|] eqn:E; [|done].
    destruct (reachable_well_formed w Hr) as (Hb & _).
    eapply evolves_trans; [exact Hb| |].
    + apply effect_evolves; [by eapply exec_effect|exact Hb].
    + apply IH; [by eapply reachable_step|exact Hrun].
Qed.

(** X3: over any sequence of operations from a reachable world a proxy
    that is still there keeps its version id, its key and its context, and
    once destroyed it stays destroyed. *)
Theorem proxy_identity_persists ops w w' this o o' :
  reachable w → run ops w = Some w' →
  heap w !! this = Some o → heap w' !! this = Some o' →
  same_proxy o o'.
Proof.
  intros Hr Hrun Ho Ho'.
  destruct (run_evolves ops w w' Hr Hrun) as (_ & _ & Hp). by eapply Hp.
Qed.

(** ** Freedom from faults *)

Lemma From_returns c p v w : ∃ r w', From c p v w = Ok r w'.
Proof.
  set (key := {| key_version_id := v; key_storage_partition := p |}).
  destruct (version_id_map w !! key) as [a|] eqn:Ek.
  { eexists _, _. by apply From_registered. }
  destruct (live_versions w !! (c, v)) as [lv|] eqn:El.
  2: { exists None, w. unfold From. munfold. fold key. rewrite Ek. simpl.
       by rewrite El. }
  destruct (is_redundant lv) eqn:Er.
  { exists None, w. unfold From. munfold. fold key. rewrite Ek. simpl.
    rewrite El. simpl. by rewrite Er. }
  eexists _, _. by apply (From_creates c p v lv).
Qed.

Ltac snapshot_clash Hs :=
  match goal with
  | Ho : heap _ !! _ = Some ?o, Ei : version_info_ ?o = None |- _ =>
      destruct (Hs _ _ Ho) as [Hclash _]; specialize (Hclash Ei); congruence
  end.

Lemma exec_no_fault op w f :
  reachable w → faultless op w → exec op w ≠ Crash f.
Proof.
  intros Hr Hf E.
  pose proof (reachable_invariant w Hr) as Hs.
  destruct op; simpl in Hf; simpl in E.
  - unfold discard, mbind, M_bind, bind in E.
    destruct (From_returns sw_context storage_partition version_id w)
      as (r & w1 & Hfrom).
    by rewrite Hfrom in E.
  - destruct Hf as [o Ho]. unfold Send, GetRendererApi in E. munfold. crunch.
  - destruct Hf as [o Ho]. unfold OnRunningStatusChanged in E.
    unfold mbind, M_bind, bind in E.
    rewrite (InvalidateVersionInfo_spec _ o) in E by done.
    destruct (version_destroyed_ o) eqn:Ed; [munfold; crunch|].
    destruct (live_versions w !! (service_worker_context_ o, version_id_ o))
      as [lv|] eqn:El; munfold; crunch.
  - destruct Hf as [o Ho]. unfold OnVersionRedundant in E.
    by rewrite (Destroy_spec _ o) in E.
  - destruct Hf as [o Ho]. unfold IsDestroyed in E. munfold. crunch.
  - destruct Hf as [o Ho]. unfold StartWorker, ScopeURL, GetStorageKey in E.
    munfold. crunch. snapshot_clash Hs.
  - unfold DidStartWorkerForScope in E. munfold.
    destruct (heap w !! this) as [o|] eqn:Ho; [|done].
    destruct (Hf o eq_refl) as [p Hp]. rewrite Hp in E. crunch.
  - unfold DidStartWorkerFail in E. munfold.
    destruct (heap w !! this) as [o|] eqn:Ho; [|done].
    destruct (Hf o eq_refl) as [p Hp]. rewrite Hp in E. crunch.
  - destruct Hf as (o & Ho & Hd). unfold StopWorker, GetStorageKey in E.
    munfold. crunch. snapshot_clash Hs.
  - destruct Hf as [o Ho]. unfold StartExternalRequest in E. munfold. crunch.
  - destruct Hf as [o Ho]. unfold FinishExternalRequest in E. munfold. crunch.
  - destruct Hf as (o & Ho & Hd).
    unfold CountExternalRequests, GetStorageKey in E. munfold. crunch.
    snapshot_clash Hs.
  - destruct Hf as [o Ho]. unfold VersionID in E. munfold. crunch.
  - destruct Hf as [o Ho]. unfold ScopeURL in E. munfold. crunch.
    snapshot_clash Hs.
  - destruct Hf as [o Ho].
    by rewrite (delete_ServiceWorkerMain_spec _ o) in E.
  - by unfold host_step in E.
Qed.

(** X4: in a reachable world no operation faults as long as its target
    exists, [StopWorker] and [CountExternalRequests] are not asked of a
    destroyed proxy and a completion callback arrives only for a start in
    flight; it returns or raises a script error, and the world it leaves is
    reachable again. *)
Theorem faultless_operation_survives op w :
  reachable w → faultless op w →
  ∃ w', world_of (exec op w) = Some w' ∧ reachable w'.
Proof.
  intros Hr Hf. pose proof (exec_no_fault op w) as Hn.
  destruct (exec op w) as [[] w'|e w'|f] eqn:E.
  - exists w'. split; [done|]. eapply reachable_step; [exact Hr|by rewrite E].
  - exists w'. split; [done|]. eapply reachable_step; [exact Hr|by rewrite E].
  - by destruct (Hn f Hr Hf).
Qed.

(** X5: in a reachable world [StopWorker] faults exactly on a destroyed
    proxy; on any other proxy it asks the host once to stop the workers of
    the storage key of the cached scope and changes nothing else. *)
Theorem StopWorker_faults_iff_destroyed this o w :
  reachable w → heap w !! this = Some o →
  (StopWorker this w = Crash NullDereference ↔ version_destroyed_ o = true)
  ∧ (version_destroyed_ o = false →
     ∃ i, version_info_ o = Some i
          ∧ StopWorker this w
            = Ok tt (with_host_calls
                       (host_calls w ++
                          [StopAllServiceWorkersForStorageKey
                             (service_worker_context_ o)
                             (CreateFirstParty (OriginCreate (scope i)))])
                       w)).
Proof.
  intros Hr Ho. pose proof (reachable_invariant w Hr _ _ Ho) as [Hn Hd].
  assert (version_destroyed_ o = false →
          ∃ i, version_info_ o = Some i
               ∧ StopWorker this w
                 = Ok tt (with_host_calls
                            (host_calls w ++
                               [StopAllServiceWorkersForStorageKey
                                  (service_worker_context_ o)
                                  (CreateFirstParty (OriginCreate (scope i)))])
                            w)) as Hlive.
  { intros Hf. destruct (version_info_ o) as [i|] eqn:Ei;
      [|specialize (Hn eq_refl); congruence].
    exists i. split; [done|]. unfold StopWorker, GetStorageKey. munfold.
    rewrite Ho. simpl. rewrite Ho. simpl. by rewrite Ei. }
  split; [|exact Hlive]. split.
  - intros Hc. destruct (version_destroyed_ o); [done|].
    destruct (Hlive eq_refl) as (i & _ & Hs). by rewrite Hs in Hc.
  - intros Hx. by apply (GetStorageKey_without_snapshot this o w Ho), Hd.
Qed.

(** ** Messaging over the cached channel *)

(** X6: the first [Send] to a running worker binds the channel, with one
    request for the remote interface, and forwards the message; from then
    on [Send] forwards on the cached channel without asking the host
    again, whatever the host reports about the worker. *)
Theorem Send_binds_channel_once this o v w internal1 channel1 args1 message1
    internal2 channel2 args2 message2 versions :
  heap w !! this = Some o → remote_ o = None →
  live_versions w !! (service_worker_context_ o, version_id_ o) = Some v →
  running_status v = kRunning →
  ConvertFromV8 args1 = Some message1 →
  ConvertFromV8 args2 = Some message2 →
  let endpoint := (service_worker_context_ o, version_id_ o) in
  ∃ w1 w2,
    Send this internal1 channel1 args1 w = Ok tt w1
    ∧ host_calls w1
      = (host_calls w ++
           [GetRemoteAssociatedInterface (service_worker_context_ o)
              (version_id_ o);
            Message endpoint internal1 channel1 message1])%list
    ∧ heap w1 !! this = Some (set_remote (Some endpoint) o)
    ∧ Send this internal2 channel2 args2 (with_live_versions versions w1)
      = Ok tt w2
    ∧ host_calls w2
      = (host_calls w1 ++ [Message endpoint internal2 channel2 message2])%list
    ∧ heap w2 = heap w1.
Proof.
  intros Ho Hr Hl Hs Hc1 Hc2 endpoint.
  assert (∃ w1, Send this internal1 channel1 args1 w = Ok tt w1
                ∧ host_calls w1
                  = (host_calls w ++
                       [GetRemoteAssociatedInterface
                          (service_worker_context_ o) (version_id_ o);
                        Message endpoint internal1 channel1 message1])%list
                ∧ heap w1 !! this = Some (set_remote (Some endpoint) o))
    as (w1 & Hs1 & Hlog & Ho1).
  { unfold Send, GetRendererApi. rewrite Hc1. munfold.
    rewrite Ho, Hr. simpl. rewrite Hl, Hs. mstep.
    eexists. split; [reflexivity|]. simpl.
    split; [by rewrite <- app_assoc|apply lookup_insert_eq]. }
  exists w1. eexists. split; [exact Hs1|]. split; [exact Hlog|].
  split; [exact Ho1|].
  rewrite (Send_bound this (set_remote (Some endpoint) o) internal2 channel2
             args2 message2 endpoint) by done.
  done.
Qed.

(** ** Status notifications *)

(** X7: a status change on a live proxy whose version the host still holds
    refreshes the snapshot from the host, keeps the proxy registered and
    not destroyed, contacts nothing, and keeps the channel only while the
    worker is starting or running; once the channel is dropped a [Send]
    with a serialisable payload does nothing. *)
Theorem status_change_refreshes_snapshot this o v w :
  heap w !! this = Some o → version_destroyed_ o = false →
  live_versions w !! (service_worker_context_ o, version_id_ o) = Some v →
  let keeps := is_starting (running_status v) || is_running (running_status v) in
  let o' := set_remote (if keeps then remote_ o else None)
              (set_version_info (Some (GetInfo v)) o) in
  let w' := with_heap (<[this := o']> (heap w)) w in
  OnRunningStatusChanged this w = Ok tt w'
  ∧ ScopeURL this w' = Ok (scope (GetInfo v)) w'
  ∧ IsDestroyed this w' = Ok false w'
  ∧ (keeps = false →
     ∀ internal channel args message,
       ConvertFromV8 args = Some message →
       Send this internal channel args w' = Ok tt w').
Proof.
  intros Ho Hd Hl keeps o' w'.
  assert (heap w' !! this = Some o') as Ho'
    by (subst w'; simpl; apply lookup_insert_eq).
  split.
  { unfold OnRunningStatusChanged, mbind, M_bind, bind.
    rewrite (InvalidateVersionInfo_spec _ o) by done. rewrite Hd, Hl.
    munfold. mstep. subst w' o' keeps. unfold with_heap; simpl. clear Ho'.
    destruct o as [vid k ctx d i [r|] sp pin]; simpl in *;
      destruct (is_starting (running_status v)),
               (is_running (running_status v)); simpl;
      rewrite ?lookup_insert_eq; simpl; rewrite ?insert_insert_eq;
      reflexivity. }
  split.
  { unfold ScopeURL. munfold. rewrite Ho'. simpl. rewrite Hd.
    by rewrite Ho'. }
  split; [rewrite (IsDestroyed_spec _ o') by done; simpl; by rewrite Hd|].
  intros Hk internal channel args message Hc.
  unfold Send, GetRendererApi. rewrite Hc. munfold. rewrite Ho'. simpl.
  rewrite Hk. simpl. rewrite Hl. simpl.
  unfold keeps in Hk. apply orb_false_elim in Hk as [_ ->]. done.
Qed.


(** ** Creation and re-creation *)

Lemma VersionID_spec this o w :
  heap w !! this = Some o → VersionID this w = Ok (version_id_ o) w.
Proof. intros Ho. unfold VersionID. munfold. by rewrite Ho. Qed.

Lemma ScopeURL_live this o i w :
  heap w !! this = Some o → version_destroyed_ o = false →
  version_info_ o = Some i → ScopeURL this w = Ok (scope i) w.
Proof.
  intros Ho Hd Hi. unfold ScopeURL. munfold. rewrite Ho. simpl. rewrite Hd.
  rewrite Ho. simpl. by rewrite Hi.
Qed.

(** X9: when the registry has no entry for the identity and the host holds
    a live version that is not redundant, [From] builds a proxy at a fresh
    address that mirrors the host: its scope is the scope the host
    reports, it is not destroyed, it is registered under the identity, and
    neither the host log, the promises nor any other proxy is touched. *)
Theorem From_creates_mirror c p v lv w :
  reachable w →
  version_id_map w !! {| key_version_id := v; key_storage_partition := p |}
    = None →
  live_versions w !! (c, v) = Some lv → is_redundant lv = false →
  ∃ a w', From c p v w = Ok (Some a) w'
          ∧ heap w !! a = None
          ∧ ScopeURL a w' = Ok (scope (GetInfo lv)) w'
          ∧ IsDestroyed a w' = Ok false w'
          ∧ VersionID a w' = Ok v w'
          ∧ FromVersionID v p w' = Ok (Some a) w'
          ∧ host_calls w' = host_calls w
          ∧ promises w' = promises w
          ∧ ∀ b, b ≠ a → heap w' !! b = heap w !! b.
Proof.
  intros Hr Hk Hl Hn.
  set (key := {| key_version_id := v; key_storage_partition := p |}) in *.
  set (o := fresh_proxy c key v (GetInfo lv)).
  exists (next_addr w), (after_create o w).
  assert (heap (after_create o w) !! next_addr w = Some o) as Ho
    by (simpl; apply lookup_insert_eq).
  split; [by apply From_creates|].
  split.
  { destruct (reachable_well_formed w Hr) as (Hb & _).
    destruct (heap w !! next_addr w) as [x|] eqn:Hx; [|done].
    apply Hb in Hx. lia. }
  split; [by apply (ScopeURL_live _ o (GetInfo lv))|].
  split; [by rewrite (IsDestroyed_spec _ o)|].
  split; [by rewrite (VersionID_spec _ o)|].
  split.
  { unfold FromVersionID, FromServiceWorkerKey. fold key. simpl.
    by rewrite lookup_insert_eq. }
  split; [done|]. split; [done|].
  intros b Hb. simpl. by rewrite lookup_insert_ne.
Qed.

(** X10: after the redundancy notification destroyed a proxy, a lookup of
    the same identity builds a new proxy at another address when the host
    then holds a live version that is not redundant, the old proxy staying
    destroyed; otherwise the lookup returns the empty handle. *)
Theorem From_after_destroy this o w versions c :
  reachable w → heap w !! this = Some o →
  let v := key_version_id (key_ o) in
  let p := key_storage_partition (key_ o) in
  ∃ w1, OnVersionRedundant this w = Ok tt w1
    ∧ (∀ lv, versions !! (c, v) = Some lv → is_redundant lv = false →
         ∃ a w2, From c p v (with_live_versions versions w1) = Ok (Some a) w2
                 ∧ a ≠ this
                 ∧ IsDestroyed a w2 = Ok false w2
                 ∧ IsDestroyed this w2 = Ok true w2
                 ∧ FromVersionID v p w2 = Ok (Some a) w2)
    ∧ ((∀ lv, versions !! (c, v) = Some lv → is_redundant lv = true) →
       From c p v (with_live_versions versions w1)
       = Ok None (with_live_versions versions w1)).
Proof.
  intros Hr Ho v p. exists (after_destroy this o w).
  split; [by apply Destroy_spec|].
  set (w1 := with_live_versions versions (after_destroy this o w)).
  assert (version_id_map w1
            !! {| key_version_id := v; key_storage_partition := p |} = None)
    as Hk.
  { subst w1 v p. simpl. destruct (key_ o). simpl. apply lookup_delete_eq. }
  split.
  - intros lv Hl Hn.
    set (key := {| key_version_id := v; key_storage_partition := p |}) in *.
    set (o' := fresh_proxy c key v (GetInfo lv)).
    exists (next_addr w1), (after_create o' w1).
    assert (next_addr w1 ≠ this) as Hne.
    { destruct (reachable_well_formed w Hr) as (Hb & _).
      apply Hb in Ho. subst w1. simpl. lia. }
    split; [by apply From_creates|]. split; [done|].
    split.
    { by rewrite (IsDestroyed_spec _ o') by (simpl; apply lookup_insert_eq). }
    split.
    { rewrite (IsDestroyed_spec _ (destroyed o)); [done|].
      simpl. rewrite lookup_insert_ne by done. apply lookup_insert_eq. }
    unfold FromVersionID, FromServiceWorkerKey. fold key. simpl.
    by rewrite lookup_insert_eq.
  - intros Hv. unfold From. munfold. rewrite Hk. simpl.
    destruct (versions !! (c, v)) as [lv|] eqn:El; [|done].
    simpl. by rewrite (Hv lv).
Qed.

(** ** Starting again, and starts that outlive the proxy *)

Lemma StartWorker_idle this o i w :
  heap w !! this = Some o → version_destroyed_ o = false →
  version_info_ o = Some i → start_worker_promise_ o = None →
  StartWorker this w
  = Ok (length (promises w))
       (with_host_calls
          (host_calls w ++
             [StartWorkerForScope (service_worker_context_ o) (scope i)
                (CreateFirstParty (OriginCreate (scope i))) this])
          (with_heap
             (<[this := set_start_worker_promise (Some (length (promises w))) o]>
                (heap w))
             (with_promises (promises w ++ [Pending]) w))).
Proof.
  intros Ho Hd Hi Hp. unfold StartWorker, ScopeURL, GetStorageKey. munfold.
  rewrite Ho, Hd, Hp. repeat progress (rewrite ?Hd, ?Hi; mstep). reflexivity.
Qed.

Lemma DidStartWorkerForScope_pending this o p w version_id process_id
    thread_id :
  heap w !! this = Some o → start_worker_promise_ o = Some p →
  promises w !! p = Some Pending →
  DidStartWorkerForScope this version_id process_id thread_id w
  = Ok tt (with_heap (<[this := set_start_worker_promise None o]> (heap w))
             (with_promises (<[p := Fulfilled]> (promises w)) w)).
Proof.
  intros Ho Hp Hs. unfold DidStartWorkerForScope. munfold.
  rewrite Ho, Hp, Hs. simpl. by rewrite Ho.
Qed.

Lemma DidStartWorkerFail_pending this o p w status_code :
  heap w !! this = Some o → start_worker_promise_ o = Some p →
  promises w !! p = Some Pending →
  DidStartWorkerFail this status_code w
  = Ok tt (with_heap (<[this := set_start_worker_promise None o]> (heap w))
             (with_promises
                (<[p := Rejected (Error start_failed_message)]> (promises w))
                w)).
Proof.
  intros Ho Hp Hs. unfold DidStartWorkerFail. munfold.
  rewrite Ho, Hp, Hs. simpl. by rewrite Ho.
Qed.

Lemma lookup_new_promise (l : list PromiseState) :
  (l ++ [Pending])%list !! length l = Some Pending.
Proof. by rewrite lookup_app_r, Nat.sub_diag. Qed.

(** X11: once the host has completed a start, with success or with
    failure, the slot is free again: the next [StartWorker] creates a new
    promise, different from the settled one, and asks the host a second
    time. *)
Theorem StartWorker_again_after_completion this o i w (success : bool) :
  heap w !! this = Some o → version_destroyed_ o = false →
  version_info_ o = Some i → start_worker_promise_ o = None →
  let completion : M unit :=
    if success then DidStartWorkerForScope this (version_id_ o) 0 0
    else DidStartWorkerFail this 0 in
  let outcome : PromiseState :=
    if success then Fulfilled else Rejected (Error start_failed_message) in
  ∃ p1 w1 w2 p2 w3,
    StartWorker this w = Ok p1 w1
    ∧ completion w1 = Ok tt w2
    ∧ StartWorker this w2 = Ok p2 w3
    ∧ p2 ≠ p1
    ∧ promise_state w3 p1 = Some outcome
    ∧ promise_state w3 p2 = Some Pending
    ∧ start_calls w3 = S (S (start_calls w)).
Proof.
  intros Ho Hd Hi Hp completion outcome.
  set (p1 := length (promises w)).
  set (o1 := set_start_worker_promise (Some p1) o).
  eexists p1, _, _, (S p1), _.
  split; [by apply (StartWorker_idle this o i)|].
  assert (∀ w1, heap w1 !! this = Some o1 →
                promises w1 = (promises w ++ [Pending])%list →
                completion w1
                = Ok tt (with_heap
                           (<[this := set_start_worker_promise None o1]>
                              (heap w1))
                           (with_promises (<[p1 := outcome]> (promises w1))
                              w1))) as Hcomp.
  { intros w1 Ho1 Hps. subst completion outcome. destruct success.
    - apply (DidStartWorkerForScope_pending this o1 p1); [done|done|].
      rewrite Hps. apply lookup_new_promise.
    - apply (DidStartWorkerFail_pending this o1 p1); [done|done|].
      rewrite Hps. apply lookup_new_promise. }
  split; [apply Hcomp; [simpl; apply lookup_insert_eq|done]|].
  assert (length (<[p1 := outcome]> (promises w ++ [Pending])%list) = S p1)
    as Hlen by (rewrite length_insert, length_app; simpl; subst p1; lia).
  split.
  { rewrite (StartWorker_idle this (set_start_worker_promise None o1) i);
      [|simpl; apply lookup_insert_eq|done|done|done].
    simpl. by rewrite Hlen. }
  split; [lia|]. unfold promise_state. simpl.
  split.
  { rewrite lookup_app_l by (rewrite Hlen; lia).
    apply list_lookup_insert_eq. rewrite length_app. simpl. subst p1. lia. }
  split.
  { rewrite <- Hlen at 1. apply lookup_new_promise. }
  unfold start_calls. simpl.
  rewrite !List.filter_app, !length_app. simpl. lia.
Qed.

(** X12: destroying a proxy leaves a start in flight untouched and does not
    contact the host: the promise stays pending, a [StartWorker] on the
    destroyed proxy returns another promise, rejected at once, and the
    completion callback still settles the first promise. *)
Theorem start_in_flight_survives_destroy this o i w status_code :
  heap w !! this = Some o → version_destroyed_ o = false →
  version_info_ o = Some i → start_worker_promise_ o = None →
  ∃ p1 w1 w2,
    StartWorker this w = Ok p1 w1
    ∧ OnVersionRedundant this w1 = Ok tt w2
    ∧ host_calls w2 = host_calls w1
    ∧ promise_state w2 p1 = Some Pending
    ∧ (∃ p2 w3, StartWorker this w2 = Ok p2 w3
                ∧ p2 ≠ p1
                ∧ promise_state w3 p2
                  = Some (Rejected (Error destroyed_message))
                ∧ promise_state w3 p1 = Some Pending
                ∧ host_calls w3 = host_calls w1)
    ∧ (∃ w4, DidStartWorkerFail this status_code w2 = Ok tt w4
             ∧ promise_state w4 p1
               = Some (Rejected (Error start_failed_message))).
Proof.
  intros Ho Hd Hi Hp.
  set (p1 := length (promises w)).
  set (o1 := set_start_worker_promise (Some p1) o).
  eexists p1, _, _.
  split; [by apply (StartWorker_idle this o i)|].
  split; [apply (Destroy_spec this o1); simpl; apply lookup_insert_eq|].
  split; [done|].
  split; [apply lookup_new_promise|].
  split.
  - exists (S p1). eexists. split.
    { unfold StartWorker. munfold. mstep. rewrite length_app. simpl.
      rewrite Nat.add_1_r.
      replace (((promises w ++ [Pending]) ++ [Pending])%list !! S p1)
        with (Some Pending).
      - reflexivity.
      - symmetry. rewrite lookup_app_r by (rewrite length_app; simpl; lia).
        rewrite length_app. simpl.
        by replace (S p1 - (length (promises w) + 1)) with 0 by lia. }
    split; [lia|]. unfold promise_state. simpl.
    split.
    { apply list_lookup_insert_eq. rewrite !length_app. simpl. lia. }
    split; [|done].
    rewrite list_lookup_insert_ne by lia.
    rewrite lookup_app_l by (rewrite length_app; simpl; lia).
    apply lookup_new_promise.
  - eexists. split.
    { apply (DidStartWorkerFail_pending this (destroyed o1) p1);
        [simpl; apply lookup_insert_eq|done|apply lookup_new_promise]. }
    unfold promise_state. simpl.
    apply list_lookup_insert_eq. rewrite length_app. simpl. lia.
Qed.

(** X13: the completion callbacks hold the proxy weakly: once the proxy has
    been released, with a start still in flight, both callbacks return
    without any effect, and the promise of that start stays pending. *)
Theorem completion_after_release_is_dropped this o i w version_id process_id
    thread_id status_code :
  heap w !! this = Some o → version_destroyed_ o = false →
  version_info_ o = Some i → start_worker_promise_ o = None →
  ∃ p1 w1 w2,
    StartWorker this w = Ok p1 w1
    ∧ delete_ServiceWorkerMain this w1 = Ok tt w2
    ∧ heap w2 !! this = None
    ∧ version_id_map w2 !! key_ o = None
    ∧ DidStartWorkerForScope this version_id process_id thread_id w2 = Ok tt w2
    ∧ DidStartWorkerFail this status_code w2 = Ok tt w2
    ∧ promise_state w2 p1 = Some Pending.
Proof.
  intros Ho Hd Hi Hp.
  set (p1 := length (promises w)).
  set (o1 := set_start_worker_promise (Some p1) o).
  eexists p1, _, _.
  split; [by apply (StartWorker_idle this o i)|].
  split; [apply (delete_ServiceWorkerMain_spec this o1);
          simpl; apply lookup_insert_eq|].
  assert (∀ h : gmap Addr ServiceWorkerMain,
            delete this (<[this := destroyed o1]> h) !! this = None) as Hgone
    by (intros h; apply lookup_delete_eq).
  split; [simpl; apply Hgone|].
  split; [simpl; apply lookup_delete_eq|].
  split; [unfold DidStartWorkerForScope; simpl; by rewrite Hgone|].
  split; [unfold DidStartWorkerFail; simpl; by rewrite Hgone|].
  apply lookup_new_promise.
Qed.

(** ** External requests *)

(** X14: on a proxy that is not destroyed [StartExternalRequest] registers
    the drawn token with the host, with the default timeout exactly when a
    timeout was asked for, and returns the token in lowercase together
    with the verdict of the host, without raising even when the host
    refuses.  If the token library reads back what it prints, handing the
    returned id to [FinishExternalRequest] reports the same token to the
    host as finished. *)
Theorem external_request_round_trip this o w (has_timeout : bool)
    request_uuid start_result :
  heap w !! this = Some o → version_destroyed_ o = false →
  ParseLowercase (AsLowercaseString request_uuid) = request_uuid →
  is_valid request_uuid = true →
  let ctx := service_worker_context_ o in
  let started :=
    StartingExternalRequest ctx (version_id_ o)
      (if has_timeout then kDefault else kDoesNotTimeout) request_uuid in
  let w1 := with_host_calls (host_calls w ++ [started]) w in
  let details := {| details_id := AsLowercaseString request_uuid;
                    details_ok := is_kOk start_result |} in
  StartExternalRequest this has_timeout request_uuid start_result w
  = Ok details w1
  ∧ FinishExternalRequest this (details_id details) w1
    = Ok tt (with_host_calls
               (host_calls w ++
                  [started;
                   FinishedExternalRequest ctx (version_id_ o) request_uuid])
               w).
Proof.
  intros Ho Hd Hparse Hvalid ctx started w1 details. split.
  - unfold StartExternalRequest. munfold. by rewrite Ho, Hd.
  - unfold FinishExternalRequest. munfold. subst w1. simpl.
    rewrite Ho, Hd. simpl. rewrite Hparse, Hvalid. simpl.
    unfold with_host_calls. simpl. by rewrite <- app_assoc.
Qed.


(** ** The registry over time *)

(** X15: no operation re-points a registry entry.  An entry that exists
    before an operation is the same afterwards, unless the operation
    destroyed or released a proxy carrying the key of the entry, in which
    case the entry is gone. *)
Theorem registry_entry_kept_or_erased op w w' k a :
  world_of (exec op w) = Some w' →
  version_id_map w !! k = Some a →
  version_id_map w' !! k = Some a
  ∨ (version_id_map w' !! k = None
     ∧ ∃ this o, heap w !! this = Some o ∧ key_ o = k
                 ∧ match heap w' !! this with
                   | Some o' => version_destroyed_ o' = true
                   | None => True
                   end).
Proof.
  intros Hstep Hk. apply exec_effect in Hstep.
  destruct Hstep as [Hh Hm Hn|this o o' Ho Hh Hm Hn Hv Hkey Hx Hd Hp
                    |this o o' Ho Hh Hm Hn Hv Hkey Hx Hd Hp
                    |this o Ho Hh Hm Hn|o' Hfree Hh Hm Hn Hd Hp Hv];
    rewrite Hm.
  - by left.
  - by left.
  - destruct (decide (k = key_ o)) as [->|Hne].
    + right. split; [apply lookup_delete_eq|].
      exists this, o. split; [done|]. split; [done|].
      by rewrite Hh, lookup_insert_eq.
    + left. by rewrite lookup_delete_ne.
  - destruct (decide (k = key_ o)) as [->|Hne].
    + right. split; [apply lookup_delete_eq|].
      exists this, o. split; [done|]. split; [done|].
      by rewrite Hh, lookup_delete_eq.
    + left. by rewrite lookup_delete_ne.
  - left. rewrite lookup_insert_ne; [done|]. intros <-.
    discriminate (eq_trans (eq_sym Hfree) Hk).
Qed.

End Further.

(** * The further properties at concrete worlds *)

Section FurtherConcrete.
Local Existing Instance sample_collaborators.

Lemma registry_entries_alive_witness :
  let w := after_ops live_ops in
  reachable w
  ∧ FromVersionID 7 0 w = Ok (Some 0) w
  ∧ ∃ o, heap w !! 0 = Some o ∧ version_id_ o = 7%Z
         ∧ version_destroyed_ o = false.
Proof.
  intros w.
  assert (reachable w) as Hr by (apply after_ops_reachable; by_evaluation).
  assert (version_id_map w
            !! {| key_version_id := 7; key_storage_partition := 0 |} = Some 0)
    as Hk by by_evaluation.
  assert (FromVersionID 7 0 w = Ok (Some 0) w) as Hf
    by exact (f_equal (λ r, Ok r w) Hk).
  split; [exact Hr|]. split; [exact Hf|].
  destruct (registry_entries_alive (H := sample_collaborators) w 7 0 0 Hr Hf)
    as (o & Ho & Hv & _ & Hd & _).
  by exists o.
Defined.

Lemma pinned_iff_not_destroyed_witness :
  let w := after_ops successor_ops in
  reachable w
  ∧ heap w !! 0 = Some (destroyed proxy7)
  ∧ (pinned_ (destroyed proxy7) = true
     ↔ version_destroyed_ (destroyed proxy7) = false)
  ∧ heap w !! 1 = Some proxy7
  ∧ (pinned_ proxy7 = true ↔ version_destroyed_ proxy7 = false).
Proof.
  intros w.
  assert (reachable w) as Hr by (apply after_ops_reachable; by_evaluation).
  assert (heap w !! 0 = Some (destroyed proxy7)) as H0 by by_evaluation.
  assert (heap w !! 1 = Some proxy7) as H1 by by_evaluation.
  split; [exact Hr|]. split; [exact H0|].
  split; [exact (pinned_iff_not_destroyed (H := sample_collaborators)
                   w 0 _ Hr H0)|].
  split; [exact H1|].
  exact (pinned_iff_not_destroyed (H := sample_collaborators) w 1 _ Hr H1).
Defined.

Lemma proxy_identity_persists_witness :
  let w := after_ops live_ops in
  let ops := [OpOnVersionRedundant 0; OpHost host_with_worker7;
              OpOnRunningStatusChanged 0; OpFrom 0 0 7] in
  let w' := default initial_world (run ops w) in
  reachable w ∧ run ops w = Some w' ∧ heap w !! 0 = Some proxy7
  ∧ heap w' !! 0 = Some (destroyed proxy7)
  ∧ same_proxy proxy7 (destroyed proxy7).
Proof.
  intros w ops w'.
  assert (reachable w) as Hr by (apply after_ops_reachable; by_evaluation).
  assert (run ops w = Some w') as Hrun
    by (apply survives_run; by_evaluation).
  assert (heap w !! 0 = Some proxy7) as Ho by by_evaluation.
  assert (heap w' !! 0 = Some (destroyed proxy7)) as Ho' by by_evaluation.
  split; [exact Hr|]. split; [exact Hrun|]. split; [exact Ho|].
  split; [exact Ho'|].
  exact (proxy_identity_persists (H := sample_collaborators)
           ops w w' 0 proxy7 (destroyed proxy7) Hr Hrun Ho Ho').
Defined.

Lemma faultless_operation_survives_witness :
  let w := after_ops live_ops in
  reachable w ∧ faultless (OpStopWorker 0) w
  ∧ ∃ w', world_of (exec (OpStopWorker 0) w) = Some w' ∧ reachable w'.
Proof.
  intros w.
  assert (reachable w) as Hr by (apply after_ops_reachable; by_evaluation).
  assert (heap w !! 0 = Some proxy7) as Ho by by_evaluation.
  assert (faultless (OpStopWorker 0) w) as Hf by (by exists proxy7).
  split; [exact Hr|]. split; [exact Hf|].
  exact (faultless_operation_survives (H := sample_collaborators)
           (OpStopWorker 0) w Hr Hf).
Defined.

Lemma StopWorker_faults_iff_destroyed_witness :
  (let w := after_ops live_ops in
   reachable w ∧ heap w !! 0 = Some proxy7
   ∧ version_destroyed_ proxy7 = false
   ∧ ∃ i, version_info_ proxy7 = Some i
          ∧ StopWorker 0 w
            = Ok tt (with_host_calls
                       (host_calls w ++
                          [StopAllServiceWorkersForStorageKey 0
                             (CreateFirstParty (OriginCreate (scope i)))])
                       w))
  ∧ (let w := after_ops redundant_ops in
     reachable w ∧ heap w !! 0 = Some (destroyed proxy7)
     ∧ version_destroyed_ (destroyed proxy7) = true
     ∧ StopWorker 0 w = Crash NullDereference).
Proof.
  split; intros w.
  - assert (reachable w) as Hr by (apply after_ops_reachable; by_evaluation).
    assert (heap w !! 0 = Some proxy7) as Ho by by_evaluation.
    split; [exact Hr|]. split; [exact Ho|]. split; [reflexivity|].
    exact (proj2 (StopWorker_faults_iff_destroyed (H := sample_collaborators)
                    0 proxy7 w Hr Ho) eq_refl).
  - assert (reachable w) as Hr by (apply after_ops_reachable; by_evaluation).
    assert (heap w !! 0 = Some (destroyed proxy7)) as Ho by by_evaluation.
    split; [exact Hr|]. split; [exact Ho|]. split; [reflexivity|].
    exact (proj2 (proj1 (StopWorker_faults_iff_destroyed
                           (H := sample_collaborators)
                           0 (destroyed proxy7) w Hr Ho)) eq_refl).
Defined.

Lemma Send_binds_channel_once_witness :
  let w := after_ops live_ops in
  heap w !! 0 = Some proxy7 ∧ remote_ proxy7 = None
  ∧ live_versions w !! (0, 7%Z) = Some worker7
  ∧ running_status worker7 = kRunning
  ∧ ConvertFromV8 (SampleString "one") = Some "one"
  ∧ ConvertFromV8 (SampleString "two") = Some "two"
  ∧ ∃ w1 w2,
      Send 0 false "ping" (SampleString "one") w = Ok tt w1
      ∧ Send 0 true "pong" (SampleString "two") (with_live_versions ∅ w1)
        = Ok tt w2
      ∧ host_calls w2
        = (host_calls w1 ++ [Message (0, 7%Z) true "pong" "two"])%list.
Proof.
  intros w.
  assert (heap w !! 0 = Some proxy7) as Ho by by_evaluation.
  assert (live_versions w !! (0, 7%Z) = Some worker7) as Hl by by_evaluation.
  split; [exact Ho|]. split; [reflexivity|]. split; [exact Hl|].
  split; [reflexivity|]. split; [reflexivity|]. split; [reflexivity|].
  destruct (Send_binds_channel_once (H := sample_collaborators)
              0 proxy7 worker7 w false "ping" (SampleString "one") "one"
              true "pong" (SampleString "two") "two" ∅
              Ho eq_refl Hl eq_refl eq_refl eq_refl)
    as (w1 & w2 & H1 & _ & _ & H2 & H3 & _).
  by exists w1, w2.
Defined.

Lemma status_change_refreshes_snapshot_witness :
  let w := after_ops sent_stopped_ops in
  let o' := set_remote None
              (set_version_info (Some (GetInfo worker7_stopped)) proxy7_bound) in
  let w' := with_heap (<[0 := o']> (heap w)) w in
  heap w !! 0 = Some proxy7_bound
  ∧ version_destroyed_ proxy7_bound = false
  ∧ live_versions w !! (0, 7%Z) = Some worker7_stopped
  ∧ OnRunningStatusChanged 0 w = Ok tt w'
  ∧ ScopeURL 0 w' = Ok sample_scope w'
  ∧ Send 0 false "ping" (SampleString "hello") w' = Ok tt w'.
Proof.
  intros w o' w'.
  assert (heap w !! 0 = Some proxy7_bound) as Ho by by_evaluation.
  assert (live_versions w !! (0, 7%Z) = Some worker7_stopped) as Hl
    by by_evaluation.
  split; [exact Ho|]. split; [reflexivity|]. split; [exact Hl|].
  destruct (status_change_refreshes_snapshot (H := sample_collaborators)
              0 proxy7_bound worker7_stopped w Ho eq_refl Hl)
    as (H1 & H2 & _ & H4).
  split; [exact H1|]. split; [exact H2|].
  exact (H4 eq_refl false "ping" (SampleString "hello") "hello" eq_refl).
Defined.


Lemma From_creates_mirror_witness :
  let w := after_ops [OpHost host_with_worker7] in
  reachable w
  ∧ version_id_map w
      !! {| key_version_id := 7; key_storage_partition := 0 |} = None
  ∧ live_versions w !! (0, 7%Z) = Some worker7
  ∧ is_redundant worker7 = false
  ∧ ∃ a w', From 0 0 7 w = Ok (Some a) w'
            ∧ ScopeURL a w' = Ok sample_scope w'
            ∧ IsDestroyed a w' = Ok false w'
            ∧ FromVersionID 7 0 w' = Ok (Some a) w'.
Proof.
  intros w.
  assert (reachable w) as Hr by (apply after_ops_reachable; by_evaluation).
  assert (version_id_map w
            !! {| key_version_id := 7; key_storage_partition := 0 |} = None)
    as Hk by by_evaluation.
  assert (live_versions w !! (0, 7%Z) = Some worker7) as Hl by by_evaluation.
  split; [exact Hr|]. split; [exact Hk|]. split; [exact Hl|].
  split; [reflexivity|].
  destruct (From_creates_mirror (H := sample_collaborators)
              0 0 7 worker7 w Hr Hk Hl eq_refl)
    as (a & w' & H1 & _ & H2 & H3 & _ & H4 & _).
  by exists a, w'.
Defined.

Lemma From_after_destroy_witness :
  let w := after_ops live_ops in
  reachable w ∧ heap w !! 0 = Some proxy7
  ∧ host_with_worker7 !! (0, 7%Z) = Some worker7
  ∧ is_redundant worker7 = false
  ∧ ∃ w1, OnVersionRedundant 0 w = Ok tt w1
          ∧ (∃ a w2, From 0 0 7 (with_live_versions host_with_worker7 w1)
                     = Ok (Some a) w2
                     ∧ a ≠ 0
                     ∧ IsDestroyed a w2 = Ok false w2
                     ∧ IsDestroyed 0 w2 = Ok true w2)
          ∧ From 0 0 7 (with_live_versions ∅ w1)
            = Ok None (with_live_versions ∅ w1).
Proof.
  intros w.
  assert (reachable w) as Hr by (apply after_ops_reachable; by_evaluation).
  assert (heap w !! 0 = Some proxy7) as Ho by by_evaluation.
  assert (host_with_worker7 !! (0, 7%Z) = Some worker7) as Hl
    by by_evaluation.
  split; [exact Hr|]. split; [exact Ho|]. split; [exact Hl|].
  split; [reflexivity|].
  destruct (From_after_destroy (H := sample_collaborators)
              0 proxy7 w host_with_worker7 0 Hr Ho) as (w1 & H1 & H2 & _).
  destruct (From_after_destroy (H := sample_collaborators)
              0 proxy7 w ∅ 0 Hr Ho) as (w1' & H1' & _ & H3).
  assert (w1' = w1) as -> by congruence.
  exists w1. split; [exact H1|]. split.
  - destruct (H2 worker7 Hl eq_refl) as (a & w2 & Ha & Hne & Hd & Hd' & _).
    by exists a, w2.
  - apply H3. intros lv Hlv. by rewrite lookup_empty in Hlv.
Defined.

Lemma StartWorker_again_after_completion_witness :
  let w := after_ops live_ops in
  heap w !! 0 = Some proxy7 ∧ version_destroyed_ proxy7 = false
  ∧ version_info_ proxy7 = Some (GetInfo worker7)
  ∧ start_worker_promise_ proxy7 = None
  ∧ ∃ p1 w1 w2 p2 w3,
      StartWorker 0 w = Ok p1 w1
      ∧ DidStartWorkerFail 0 0 w1 = Ok tt w2
      ∧ StartWorker 0 w2 = Ok p2 w3
      ∧ p2 ≠ p1
      ∧ start_calls w3 = S (S (start_calls w)).
Proof.
  intros w.
  assert (heap w !! 0 = Some proxy7) as Ho by by_evaluation.
  split; [exact Ho|]. split; [reflexivity|]. split; [reflexivity|].
  split; [reflexivity|].
  destruct (StartWorker_again_after_completion (H := sample_collaborators)
              0 proxy7 (GetInfo worker7) w false Ho eq_refl eq_refl eq_refl)
    as (p1 & w1 & w2 & p2 & w3 & H1 & H2 & H3 & H4 & _ & _ & H5).
  by exists p1, w1, w2, p2, w3.
Defined.

Lemma start_in_flight_survives_destroy_witness :
  let w := after_ops live_ops in
  heap w !! 0 = Some proxy7 ∧ version_destroyed_ proxy7 = false
  ∧ version_info_ proxy7 = Some (GetInfo worker7)
  ∧ start_worker_promise_ proxy7 = None
  ∧ ∃ p1 w1 w2,
      StartWorker 0 w = Ok p1 w1
      ∧ OnVersionRedundant 0 w1 = Ok tt w2
      ∧ promise_state w2 p1 = Some Pending
      ∧ ∃ w4, DidStartWorkerFail 0 0 w2 = Ok tt w4
              ∧ promise_state w4 p1
                = Some (Rejected (Error start_failed_message)).
Proof.
  intros w.
  assert (heap w !! 0 = Some proxy7) as Ho by by_evaluation.
  split; [exact Ho|]. split; [reflexivity|]. split; [reflexivity|].
  split; [reflexivity|].
  destruct (start_in_flight_survives_destroy (H := sample_collaborators)
              0 proxy7 (GetInfo worker7) w 0 Ho eq_refl eq_refl eq_refl)
    as (p1 & w1 & w2 & H1 & H2 & _ & H3 & _ & H4).
  by exists p1, w1, w2.
Defined.

Lemma completion_after_release_is_dropped_witness :
  let w := after_ops live_ops in
  heap w !! 0 = Some proxy7 ∧ version_destroyed_ proxy7 = false
  ∧ version_info_ proxy7 = Some (GetInfo worker7)
  ∧ start_worker_promise_ proxy7 = None
  ∧ ∃ p1 w1 w2,
      StartWorker 0 w = Ok p1 w1
      ∧ delete_ServiceWorkerMain 0 w1 = Ok tt w2
      ∧ DidStartWorkerForScope 0 7 1 1 w2 = Ok tt w2
      ∧ promise_state w2 p1 = Some Pending.
Proof.
  intros w.
  assert (heap w !! 0 = Some proxy7) as Ho by by_evaluation.
  split; [exact Ho|]. split; [reflexivity|]. split; [reflexivity|].
  split; [reflexivity|].
  destruct (completion_after_release_is_dropped (H := sample_collaborators)
              0 proxy7 (GetInfo worker7) w 7 1 1 0
              Ho eq_refl eq_refl eq_refl)
    as (p1 & w1 & w2 & H1 & H2 & _ & _ & H3 & _ & H4).
  by exists p1, w1, w2.
Defined.

Lemma external_request_round_trip_witness :
  let w := after_ops live_ops in
  let started := StartingExternalRequest 0 7 kDefault sample_token in
  heap w !! 0 = Some proxy7 ∧ version_destroyed_ proxy7 = false
  ∧ ParseLowercase (AsLowercaseString sample_token) = sample_token
  ∧ is_valid sample_token = true
  ∧ StartExternalRequest 0 true sample_token kWorkerNotRunning w
    = Ok {| details_id := sample_token; details_ok := false |}
         (with_host_calls (host_calls w ++ [started]) w)
  ∧ FinishExternalRequest 0 sample_token
      (with_host_calls (host_calls w ++ [started]) w)
    = Ok tt (with_host_calls
               (host_calls w ++
                  [started; FinishedExternalRequest 0 7 sample_token]) w).
Proof.
  intros w started.
  assert (heap w !! 0 = Some proxy7) as Ho by by_evaluation.
  assert (ParseLowercase (AsLowercaseString sample_token) = sample_token)
    as Hp by by_evaluation.
  assert (is_valid sample_token = true) as Hv by by_evaluation.
  split; [exact Ho|]. split; [reflexivity|]. split; [exact Hp|].
  split; [exact Hv|].
  exact (external_request_round_trip (H := sample_collaborators)
           0 proxy7 w true sample_token kWorkerNotRunning Ho eq_refl Hp Hv).
Defined.


Lemma registry_entry_kept_or_erased_witness :
  let w := after_ops successor_ops in
  let w' := after_destroy 0 (destroyed proxy7) w in
  world_of (exec (OpOnVersionRedundant 0) w) = Some w'
  ∧ version_id_map w !! key7 = Some 1
  ∧ (version_id_map w' !! key7 = Some 1
     ∨ (version_id_map w' !! key7 = None
        ∧ ∃ this o, heap w !! this = Some o ∧ key_ o = key7
                    ∧ match heap w' !! this with
                      | Some o' => version_destroyed_ o' = true
                      | None => True
                      end)).
Proof.
  intros w w'.
  assert (heap w !! 0 = Some (destroyed proxy7)) as Ho by by_evaluation.
  assert (version_id_map w !! key7 = Some 1) as Hk by by_evaluation.
  assert (world_of (exec (OpOnVersionRedundant 0) w) = Some w') as Hstep
    by (simpl; unfold OnVersionRedundant;
        by rewrite (Destroy_spec 0 (destroyed proxy7) w Ho)).
  split; [exact Hstep|]. split; [exact Hk|].
  exact (registry_entry_kept_or_erased (H := sample_collaborators)
           (OpOnVersionRedundant 0) w w' key7 1 Hstep Hk).
Defined.

End FurtherConcrete.
